(** * Image compositing engine of the photo booth: a shallow embedding

    The functions of [utils/imageComposite.js] are embedded one by one:
    [extractStripFromComposite], [getPageSizeFromGrid],
    [createStripGridComposite] and [createGridComposite].

    Conventions of the embedding.
    - A JavaScript number is an exact rational ([Q]); [Math.round x] is
      [floor (x + 1/2)].  NaN, infinities and binary64 rounding are outside
      the model, so every statement below is about exact arithmetic.
    - Grid column and row counts are integers ([Z]), absent fields are
      [None].
    - [throw] and promise rejection are the [Throw] completion.
    - The object literal [gridToPageSize] is a finite map on its own keys;
      identifiers that name members inherited from [Object.prototype] are
      outside the model.
    - The browser (image decoder, canvas rasteriser) is an interface
      ([Browser]) with the two laws of canvas drawing the proofs rely on. *)

From Stdlib Require Import QArith Qround Qabs Qminmax ZArith List String Bool Lia Lqa.
From Stdlib Require Import DecimalString.
Import ListNotations.

Open Scope string_scope.
Open Scope list_scope.
Open Scope Q_scope.

(** ** JavaScript numbers *)

Module Math.

Definition round (x : Q) : Z := Qfloor (x + (1 # 2)).
Definition floor (x : Q) : Z := Qfloor x.
Definition min (x y : Q) : Q := Qmin x y.
Definition max (x y : Q) : Q := Qmax x y.
Definition abs (x : Q) : Q := Qabs x.

End Math.

(** [a < b] and [a > b] on numbers, as booleans. *)
Definition Qltb (a b : Q) : bool :=
  match a ?= b with Lt => true | _ => false end.
Definition Qgtb (a b : Q) : bool := Qltb b a.

(** An integer printed by a template literal. *)
Definition show (z : Z) : string := NilZero.string_of_int (Z.to_int z).

(** ** Completions: normal return, or a thrown value *)

Inductive JsError : Type :=
| Error (message : string)   (* new Error(message) *)
| TypeError                  (* property read on null or undefined *)
| ErrorEvent.                (* the event an Image hands to onerror *)

Inductive Completion (A : Type) : Type :=
| Normal (a : A)
| Throw (e : JsError).
Arguments Normal {A} a.
Arguments Throw {A} e.

Definition cbind {A B} (m : Completion A) (f : A -> Completion B) : Completion B :=
  match m with
  | Normal a => f a
  | Throw e => Throw e
  end.

Notation "x <- m ;; k" := (cbind m (fun x => k))
  (at level 61, m at next level, right associativity).

(** ** Data model *)

Record GridDescriptor : Type := mkGrid {
  id : option string;
  cols : option Z;
  rows : option Z;
  isStripGrid : bool
}.

(** What a caller may pass as [grid]: nothing, [null], a legacy identifier
    string, or a descriptor object. *)
Inductive GridArg : Type :=
| GridUndefined
| GridNull
| GridId (s : string)
| GridObj (g : GridDescriptor).

Record PageSizeConfig : Type := mkPage {
  widthInches : Q;
  heightInches : Q;
  pageSize : string
}.

(** [!grid] *)
Definition grid_falsy (grid : GridArg) : bool :=
  match grid with
  | GridUndefined | GridNull => true
  | GridId s => if string_dec s "" then true else false
  | GridObj _ => false
  end.

(** [grid.id], [grid.cols], [grid.rows], [grid.isStripGrid]: a read on
    [null] or [undefined] throws, a read on a string primitive yields
    [undefined]. *)
Definition read_field {A} (f : GridDescriptor -> option A) (grid : GridArg)
  : Completion (option A) :=
  match grid with
  | GridUndefined | GridNull => Throw TypeError
  | GridId _ => Normal None
  | GridObj g => Normal (f g)
  end.

Definition read_flag (grid : GridArg) : Completion bool :=
  match grid with
  | GridUndefined | GridNull => Throw TypeError
  | GridId _ => Normal false
  | GridObj g => Normal (isStripGrid g)
  end.

(** [v || 1] on a count: [undefined] and [0] are falsy. *)
Definition or_one (v : option Z) : Z :=
  match v with
  | None => 1
  | Some z => if (z =? 0)%Z then 1%Z else z
  end.

(** [!v] on a count. *)
Definition count_falsy (v : option Z) : bool :=
  match v with
  | None => true
  | Some z => (z =? 0)%Z
  end.

(** ** getPageSizeFromGrid *)

Definition page4x6 : PageSizeConfig := mkPage 4 6 "4x6".

Definition gridToPageSize : list (string * PageSizeConfig) :=
  [ ("4x6-single", page4x6);
    ("4x6-2cut", page4x6);
    ("4x6-4cut", page4x6);
    ("4x6-6cut", page4x6);
    ("strip-grid", page4x6);
    ("5x5-single", page4x6);
    ("2x4-vertical-2", page4x6);
    ("5x7-6cut", page4x6) ].

Fixpoint lookup {V} (m : list (string * V)) (k : string) : option V :=
  match m with
  | [] => None
  | (k', v) :: m' => if string_dec k k' then Some v else lookup m' k
  end.

(** A property key: [undefined] is converted to the string "undefined". *)
Definition property_key (k : option string) : string :=
  match k with
  | None => "undefined"
  | Some s => s
  end.

Record StandardSize : Type := mkSize { w : Q; h : Q; name : string }.

Definition standardSizes : list StandardSize :=
  [ mkSize 2 4 "2x4"; mkSize 4 6 "4x6"; mkSize 5 7 "5x7"; mkSize 8 10 "8x10" ].

Definition cellWidth : Q := 2.
Definition cellHeight : Q := 3.
Definition margin : Q := 0.1.

(** The candidate page size of the fallback, from the effective counts. *)
Definition candidateWidth (cols : Z) : Q :=
  cellWidth * inject_Z cols + margin * (inject_Z cols - 1).
Definition candidateHeight (rows : Z) : Q :=
  cellHeight * inject_Z rows + margin * (inject_Z rows - 1).

Definition diff (widthInches heightInches : Q) (size : StandardSize) : Q :=
  Math.abs (widthInches - w size) + Math.abs (heightInches - h size).

(** One turn of the [forEach] that looks for the closest standard size;
    the state is [(closest, minDiff)]. *)
Definition closer (widthInches heightInches : Q)
  (st : StandardSize * Q) (size : StandardSize) : StandardSize * Q :=
  let d := diff widthInches heightInches size in
  if Qltb d (snd st) then (size, d) else st.

Definition closestSize (widthInches heightInches : Q) : StandardSize :=
  let closest := hd (mkSize 0 0 "") standardSizes in   (* standardSizes[0] *)
  let minDiff := diff widthInches heightInches closest in
  fst (fold_left (closer widthInches heightInches) standardSizes (closest, minDiff)).

Definition getPageSizeFromGrid (grid : GridArg) : Completion PageSizeConfig :=
  if grid_falsy grid then Normal (mkPage 4 6 "4x6")
  else
    gridId <- match grid with
              | GridId s => Normal (Some s)
              | _ => read_field id grid
              end ;;
    match lookup gridToPageSize (property_key gridId) with
    | Some page => Normal page
    | None =>
        c <- read_field cols grid ;;
        r <- read_field rows grid ;;
        let cols := or_one c in
        let rows := or_one r in
        let widthInches := candidateWidth cols in
        let heightInches := candidateHeight rows in
        let closest := closestSize widthInches heightInches in
        Normal (mkPage (w closest) (h closest) (name closest))
    end.

Example resolve_single :
  getPageSizeFromGrid (GridObj (mkGrid (Some "4x6-single") (Some 1%Z) (Some 1%Z) false))
  = Normal page4x6.
Proof. reflexivity. Qed.

Example resolve_3x3 :
  getPageSizeFromGrid (GridObj (mkGrid None (Some 3%Z) (Some 3%Z) false))
  = Normal (mkPage 8 10 "8x10").
Proof. reflexivity. Qed.

(** One column and two rows: the candidate 2in by 6.1in is equally far
    from 2x4 and from 4x6, and the one listed first is returned. *)
Example resolve_tie :
  diff (candidateWidth 1) (candidateHeight 2) (mkSize 2 4 "2x4")
  == diff (candidateWidth 1) (candidateHeight 2) (mkSize 4 6 "4x6") /\
  getPageSizeFromGrid (GridObj (mkGrid None (Some 1%Z) (Some 2%Z) false))
  = Normal (mkPage 2 4 "2x4").
Proof. split; reflexivity. Qed.

Example resolve_empty_string :
  getPageSizeFromGrid (GridId "") = Normal page4x6.
Proof. reflexivity. Qed.

Example resolve_unknown_string :
  getPageSizeFromGrid (GridId "legacy") = Normal (mkPage 2 4 "2x4").
Proof. reflexivity. Qed.

(** ** The browser: decoded images, canvases and their pixels *)

Record Bitmap (pixel : Type) : Type := mkBitmap {
  width : Z;
  height : Z;
  px : Z -> Z -> pixel       (* meaningful for 0 <= x < width, 0 <= y < height *)
}.
Arguments mkBitmap {pixel} width height px.
Arguments width {pixel} b.
Arguments height {pixel} b.
Arguments px {pixel} b x y.

Definition in_bounds (w h x y : Z) : bool :=
  ((0 <=? x) && (x <? w) && (0 <=? y) && (y <? h))%Z.

(** What the browser contributes: the pixel type with the colours used,
    source-over compositing, the resampling of [drawImage] (the colour an
    image drawn from a source rectangle into a destination rectangle gives
    to the canvas pixel [(x, y)], [None] where it does not reach), and the
    image decoder behind [new Image()].  The laws: compositing over a
    blank pixel yields the source; an unscaled draw at whole-pixel
    offsets copies pixels, clipped to the source; a loaded image has
    positive dimensions. *)
Class Browser : Type := {
  pixel : Type;
  white : pixel;
  transparent : pixel;
  over : pixel -> pixel -> pixel;
  sample : Bitmap pixel -> Q -> Q -> Q -> Q -> Q -> Q -> Q -> Q -> Z -> Z -> option pixel;
  decode : string -> option (Bitmap pixel);
  over_blank : forall p, over p transparent = p;
  sample_unscaled : forall b (sx sy sw sh dx dy x y : Z),
    sample b (inject_Z sx) (inject_Z sy) (inject_Z sw) (inject_Z sh)
             (inject_Z dx) (inject_Z dy) (inject_Z sw) (inject_Z sh) x y
    = if (in_bounds sw sh (x - dx) (y - dy)
          && in_bounds (width b) (height b) (x - dx + sx) (y - dy + sy))%bool
      then Some (px b (x - dx + sx) (y - dy + sy))%Z
      else None;
  decode_size : forall src b, decode src = Some b ->
    (0 < width b)%Z /\ (0 < height b)%Z
}.

Section Engine.

Context `{B : Browser}.

Definition Image : Type := Bitmap pixel.

(** The calls made on a 2d context. *)
Inductive DrawOp : Type :=
| FillRect (fillStyle : pixel) (x y w h : Q)
| DrawImage (image : Image) (sx sy sWidth sHeight dx dy dWidth dHeight : Q).

(** A canvas: its size and the calls made on its context, oldest first. *)
Record Canvas : Type := mkCanvas {
  cv_width : Z;
  cv_height : Z;
  cv_ops : list DrawOp
}.

(** The colour of canvas pixel [(x, y)] after one call. *)
Definition paint (op : DrawOp) (x y : Z) (old : pixel) : pixel :=
  match op with
  | FillRect fillStyle rx ry rw rh =>
      if (Qle_bool rx (inject_Z x) && Qle_bool (inject_Z x + 1) (rx + rw)
          && Qle_bool ry (inject_Z y) && Qle_bool (inject_Z y + 1) (ry + rh))%bool
      then fillStyle else old
  | DrawImage image sx sy sWidth sHeight dx dy dWidth dHeight =>
      match sample image sx sy sWidth sHeight dx dy dWidth dHeight x y with
      | Some p => over p old
      | None => old
      end
  end.

Definition pixels (ops : list DrawOp) (x y : Z) : pixel :=
  fold_left (fun p op => paint op x y p) ops transparent.

(** The bitmap a canvas holds. *)
Definition bitmap (cv : Canvas) : Bitmap pixel :=
  mkBitmap (cv_width cv) (cv_height cv) (pixels (cv_ops cv)).

Definition getPixel {pixel} (b : Bitmap pixel) (x y : Z) : option pixel :=
  if in_bounds (width b) (height b) x y then Some (px b x y) else None.

(** ** Programs: a log of what was asked of the browser, and a completion *)

Inductive Event : Type :=
| LoadImage (src : string)         (* new Image(), image.src = src *)
| CreateCanvas (w h : Z)
| Draw (op : DrawOp)
| ToDataURL
| ConsoleError.

Definition Prog (A : Type) : Type := (list Event * Completion A)%type.

Definition ret {A} (a : A) : Prog A := ([], Normal a).
Definition throw {A} (e : JsError) : Prog A := ([], Throw e).
Definition lift {A} (c : Completion A) : Prog A := ([], c).

Definition bind {A B} (m : Prog A) (f : A -> Prog B) : Prog B :=
  match m with
  | (log, Normal a) => let (log', r) := f a in (log ++ log', r)
  | (log, Throw e) => (log, Throw e)
  end.

Notation "x <~ m ;; k" := (bind m (fun x => k))
  (at level 61, m at next level, right associativity).

(** [try { m } catch (error) { console.error(...); throw error; }] *)
Definition try_log {A} (m : Prog A) : Prog A :=
  match m with
  | (log, Throw e) => (log ++ [ConsoleError], Throw e)
  | done => done
  end.

(** [forEach((item, index) => ...)], threading the state the callback
    mutates. *)
Fixpoint forEach {A S} (f : A -> Z -> S -> S) (l : list A) (index : Z) (s : S) : S :=
  match l with
  | [] => s
  | a :: l' => forEach f l' (index + 1)%Z (f a index s)
  end.

Fixpoint forEachM {A S} (f : A -> Z -> S -> Prog S)
  (l : list A) (index : Z) (s : S) : Prog S :=
  match l with
  | [] => ret s
  | a :: l' => s' <~ f a index s ;; forEachM f l' (index + 1)%Z s'
  end.

Definition createCanvas (w h : Z) : Prog Canvas :=
  ([CreateCanvas w h], Normal (mkCanvas w h [])).

Definition draw (cv : Canvas) (op : DrawOp) : Prog Canvas :=
  ([Draw op], Normal (mkCanvas (cv_width cv) (cv_height cv) (cv_ops cv ++ [op]))).

(** [canvas.toDataURL('image/jpeg', 0.95)]: the result stands for the
    canvas as it is handed to the encoder. *)
Definition toDataURL (cv : Canvas) : Prog Canvas :=
  ([ToDataURL], Normal cv).

(** One image load; [onerror] rejects with [failure]. *)
Definition loadImage (failure : JsError) (src : string) : Prog Image :=
  ([LoadImage src],
   match decode src with
   | Some img => Normal img
   | None => Throw failure
   end).

Fixpoint decodeAll (photos : list string) : option (list Image) :=
  match photos with
  | [] => Some []
  | src :: rest =>
      match decode src, decodeAll rest with
      | Some img, Some imgs => Some (img :: imgs)
      | _, _ => None
      end
  end.

(** [photos.map(src => new Promise(...))] followed by
    [await Promise.all(...)]: every load is started, and one failure
    rejects the whole. *)
Definition loadAll (photos : list string) : Prog (list Image) :=
  (map LoadImage photos,
   match decodeAll photos with
   | Some images => Normal images
   | None => Throw ErrorEvent
   end).

(** [drawImage(image, dx, dy)]: the whole image, unscaled. *)
Definition drawImage3 (image : Image) (dx dy : Z) : DrawOp :=
  DrawImage image 0 0 (inject_Z (width image)) (inject_Z (height image))
            (inject_Z dx) (inject_Z dy)
            (inject_Z (width image)) (inject_Z (height image)).

(** ** extractStripFromComposite *)

Definition extractStripFromComposite
  (compositeImageDataUrl : string) (dpi : Q) : Prog Canvas :=
  let stripWidthInches := 2 in
  let stripHeightInches := 6 in
  let stripWidthPx := Math.round (stripWidthInches * dpi) in
  let stripHeightPx := Math.round (stripHeightInches * dpi) in
  compositeImg <~ loadImage (Error "Failed to load composite image")
                            compositeImageDataUrl ;;
  try_log (
    stripCanvas <~ createCanvas stripWidthPx stripHeightPx ;;
    stripCanvas <~ draw stripCanvas
      (DrawImage compositeImg
         0 0 (inject_Z stripWidthPx) (inject_Z stripHeightPx)
         0 0 (inject_Z stripWidthPx) (inject_Z stripHeightPx)) ;;
    toDataURL stripCanvas).

(** ** Aspect-fit placement

    The branch both compositors run for each photo; [cellX] is [0] in the
    strip compositor, which has a single column starting at the left
    edge. *)

Record Placement : Type := mkPlacement {
  drawX : Q;
  drawY : Q;
  drawWidth : Q;
  drawHeight : Q
}.

Definition placeInCell (imgAspect : Q) (cellX cellY : Q) (cellWidthPx cellHeightPx : Z)
  : Placement :=
  let cellAspect := inject_Z cellWidthPx / inject_Z cellHeightPx in
  if Qgtb imgAspect cellAspect then
    let drawWidth := inject_Z cellWidthPx in
    let drawHeight := inject_Z cellWidthPx / imgAspect in
    mkPlacement cellX (cellY + (inject_Z cellHeightPx - drawHeight) / 2)
                drawWidth drawHeight
  else
    let drawHeight := inject_Z cellHeightPx in
    let drawWidth := inject_Z cellHeightPx * imgAspect in
    mkPlacement (cellX + (inject_Z cellWidthPx - drawWidth) / 2) cellY
                drawWidth drawHeight.

(** [img.width / img.height] *)
Definition aspectOf (img : Image) : Q := inject_Z (width img) / inject_Z (height img).

(** [ctx.drawImage(img, 0, 0, img.width, img.height, drawX, drawY,
    drawWidth, drawHeight)] *)
Definition drawPlaced (img : Image) (p : Placement) : DrawOp :=
  DrawImage img 0 0 (inject_Z (width img)) (inject_Z (height img))
            (drawX p) (drawY p) (drawWidth p) (drawHeight p).

(** ** createStripGridComposite *)

(** The body of the [images.forEach] of the strip compositor. *)
Definition stripPlacement (cellWidthPx cellHeightPx : Z) (img : Image) (index : Z)
  : Placement :=
  let cellY := inject_Z (index * cellHeightPx) in
  let imgAspect := aspectOf img in
  let cellAspect := inject_Z cellWidthPx / inject_Z cellHeightPx in
  if Qgtb imgAspect cellAspect then
    let drawWidth := inject_Z cellWidthPx in
    let drawHeight := inject_Z cellWidthPx / imgAspect in
    mkPlacement 0 (cellY + (inject_Z cellHeightPx - drawHeight) / 2)
                drawWidth drawHeight
  else
    let drawHeight := inject_Z cellHeightPx in
    let drawWidth := inject_Z cellHeightPx * imgAspect in
    mkPlacement ((inject_Z cellWidthPx - drawWidth) / 2) cellY
                drawWidth drawHeight.

Definition photos_length (photos : option (list string)) : Z :=
  match photos with
  | None => 0
  | Some l => Z.of_nat (List.length l)
  end.

Definition createStripGridComposite
  (photos : option (list string)) (dpi : Q) : Prog Canvas :=
  match photos with
  | None => throw (Error "Strip grid requires exactly 4 photos")
  | Some photos =>
    if negb (Z.of_nat (List.length photos) =? 4)%Z
    then throw (Error "Strip grid requires exactly 4 photos")
    else
      let stripWidthInches := 2 in
      let stripHeightInches := 6 in
      let canvasWidthInches := 4 in
      let canvasHeightInches := 6 in
      let stripWidthPx := Math.round (stripWidthInches * dpi) in
      let stripHeightPx := Math.round (stripHeightInches * dpi) in
      let canvasWidthPx := Math.round (canvasWidthInches * dpi) in
      let canvasHeightPx := Math.round (canvasHeightInches * dpi) in
      let cellHeightInches := stripHeightInches / 4 in
      let cellWidthPx := stripWidthPx in
      let cellHeightPx := Math.round (cellHeightInches * dpi) in
      images <~ loadAll photos ;;
      stripCanvas <~ createCanvas stripWidthPx stripHeightPx ;;
      stripCanvas <~ draw stripCanvas
        (FillRect white 0 0 (inject_Z stripWidthPx) (inject_Z stripHeightPx)) ;;
      stripCanvas <~ forEachM
        (fun img index cv =>
           draw cv (drawPlaced img (stripPlacement cellWidthPx cellHeightPx img index)))
        images 0%Z stripCanvas ;;
      canvas <~ createCanvas canvasWidthPx canvasHeightPx ;;
      canvas <~ draw canvas
        (FillRect white 0 0 (inject_Z canvasWidthPx) (inject_Z canvasHeightPx)) ;;
      canvas <~ draw canvas (drawImage3 (bitmap stripCanvas) 0 0) ;;
      canvas <~ draw canvas (drawImage3 (bitmap stripCanvas) stripWidthPx 0) ;;
      toDataURL canvas
  end.

(** ** createGridComposite *)

(** The [Map] of cell dimensions, keyed by cell position, in insertion
    order.  The source's key is the text "col-row", which is the pair
    [(col, row)] written out. *)
Record CellDims : Type := mkDims {
  aspect : Q;
  minWidth : Q;
  minHeight : Q
}.

Definition CellMap : Type := list ((Z * Z) * CellDims).

Definition key_eqb (k k' : Z * Z) : bool :=
  ((fst k =? fst k') && (snd k =? snd k'))%Z.

Fixpoint map_has (m : CellMap) (k : Z * Z) : bool :=
  match m with
  | [] => false
  | (k', _) :: m' => if key_eqb k k' then true else map_has m' k
  end.

(** [current = m.get(k); current.aspect = f(current.aspect)] *)
Fixpoint map_update_aspect (m : CellMap) (k : Z * Z) (f : Q -> Q) : CellMap :=
  match m with
  | [] => []
  | (k', d) :: m' =>
      if key_eqb k k'
      then (k', mkDims (f (aspect d)) (minWidth d) (minHeight d)) :: m'
      else (k', d) :: map_update_aspect m' k f
  end.

(** The body of the first [images.forEach]. *)
Definition recordCell (rows : Z) (maxCellWidth : Q)
  (img : Image) (index : Z) (cellDimensions : CellMap) : CellMap :=
  let row := Z.rem index rows in
  let col := (index / rows)%Z in
  let cellKey := (col, row) in
  let imgAspect := aspectOf img in
  if negb (map_has cellDimensions cellKey) then
    cellDimensions ++
      [(cellKey,
        mkDims imgAspect
               (if Qgtb imgAspect 1 then maxCellWidth else maxCellWidth / imgAspect)
               (if Qgtb imgAspect 1 then maxCellWidth / imgAspect else maxCellWidth))]
  else
    map_update_aspect cellDimensions cellKey (fun a => Math.max a imgAspect).

(** The body of [cellDimensions.forEach]; the state is
    [(maxCellHeightInches, maxCellWidthInches)]. *)
Definition widen (maxCellWidth : Q) (st : Q * Q) (entry : (Z * Z) * CellDims) : Q * Q :=
  let dims := snd entry in
  if Qgtb (aspect dims) 1
  then (Math.max (fst st) (maxCellWidth / aspect dims), snd st)
  else (fst st, Math.max (snd st) (maxCellWidth * aspect dims)).

(** [(maxCellHeightInches, maxCellWidthInches)] after both loops. *)
Definition cellSizeInches (rows : Z) (maxCellWidth : Q) (images : list Image) : Q * Q :=
  let cellDimensions := forEach (recordCell rows maxCellWidth) images 0%Z [] in
  fold_left (widen maxCellWidth) cellDimensions (maxCellWidth, maxCellWidth).

(** The pixel geometry of the grid canvas. *)
Record Layout : Type := mkLayout {
  cellWidthPx : Z;
  cellHeightPx : Z;
  marginSize : Z;
  canvasWidth : Z;
  canvasHeight : Z
}.

Definition layoutOf (cols rows : Z) (dpi marginPercent maxCellWidth : Q)
  (images : list Image) : Layout :=
  let '(maxCellHeightInches, maxCellWidthInches) :=
    cellSizeInches rows maxCellWidth images in
  let cellWidthPx := Math.round (maxCellWidthInches * dpi) in
  let cellHeightPx := Math.round (maxCellHeightInches * dpi) in
  let marginSize :=
    Math.round (Math.min (inject_Z cellWidthPx) (inject_Z cellHeightPx)
                * (marginPercent / 100)) in
  let canvasWidth := (marginSize + (cellWidthPx + marginSize) * cols)%Z in
  let canvasHeight := (marginSize + (cellHeightPx + marginSize) * rows)%Z in
  mkLayout cellWidthPx cellHeightPx marginSize canvasWidth canvasHeight.

(** The body of the second [images.forEach]. *)
Definition gridPlacement (rows : Z) (lay : Layout) (img : Image) (index : Z)
  : Placement :=
  let row := Z.rem index rows in
  let col := (index / rows)%Z in
  let cellX := (marginSize lay + col * (cellWidthPx lay + marginSize lay))%Z in
  let cellY := (marginSize lay + row * (cellHeightPx lay + marginSize lay))%Z in
  let imgAspect := aspectOf img in
  let cellAspect := inject_Z (cellWidthPx lay) / inject_Z (cellHeightPx lay) in
  if Qgtb imgAspect cellAspect then
    let drawWidth := inject_Z (cellWidthPx lay) in
    let drawHeight := inject_Z (cellWidthPx lay) / imgAspect in
    mkPlacement (inject_Z cellX)
                (inject_Z cellY + (inject_Z (cellHeightPx lay) - drawHeight) / 2)
                drawWidth drawHeight
  else
    let drawHeight := inject_Z (cellHeightPx lay) in
    let drawWidth := inject_Z (cellHeightPx lay) * imgAspect in
    mkPlacement (inject_Z cellX + (inject_Z (cellWidthPx lay) - drawWidth) / 2)
                (inject_Z cellY)
                drawWidth drawHeight.

(** The value of a count that passed the [!grid.cols] test. *)
Definition count (v : option Z) : Z :=
  match v with
  | Some z => z
  | None => 0
  end.

(** [maxCellWidth] once the [null] default is replaced. *)
Definition resolveMaxCellWidth (pageConfig : PageSizeConfig) (cols rows : Z)
  (maxCellWidth : option Q) : Q :=
  match maxCellWidth with
  | Some m => m
  | None =>
      let marginInches := 0.1 in
      let availableWidth :=
        widthInches pageConfig - marginInches * (inject_Z cols - 1) in
      let availableHeight :=
        heightInches pageConfig - marginInches * (inject_Z rows - 1) in
      Math.min (availableWidth / inject_Z cols) (availableHeight / inject_Z rows)
  end.

Definition is_strip_id (gridId : option string) : bool :=
  match gridId with
  | Some s => if string_dec s "strip-grid" then true else false
  | None => false
  end.

Definition photos_empty (photos : option (list string)) : bool :=
  match photos with
  | None => true
  | Some l => (Z.of_nat (List.length l) =? 0)%Z
  end.

Definition photos_list (photos : option (list string)) : list string :=
  match photos with
  | None => []
  | Some l => l
  end.

Definition createGridComposite
  (photos : option (list string)) (grid : GridArg)
  (dpi marginPercent : Q) (maxCellWidth : option Q) : Prog Canvas :=
  if photos_empty photos then throw (Error "No photos provided") else
  if grid_falsy grid then throw (Error "Invalid grid configuration") else
  c <~ lift (read_field cols grid) ;;
  if count_falsy c then throw (Error "Invalid grid configuration") else
  r <~ lift (read_field rows grid) ;;
  if count_falsy r then throw (Error "Invalid grid configuration") else
  gridId <~ lift (read_field id grid) ;;
  flag <~ (if is_strip_id gridId then ret true else lift (read_flag grid)) ;;
  if flag then
    if negb (photos_length photos =? 4)%Z
    then throw (Error ("Strip grid requires exactly 4 photos, got "
                       ++ show (photos_length photos)))
    else createStripGridComposite photos dpi
  else
    let cols := count c in
    let rows := count r in
    let totalCells := (cols * rows)%Z in
    if negb (photos_length photos =? totalCells)%Z
    then throw (Error ("Expected " ++ show totalCells ++ " photos, got "
                       ++ show (photos_length photos)))
    else
      pageConfig <~ lift (getPageSizeFromGrid grid) ;;
      let maxCellWidth := resolveMaxCellWidth pageConfig cols rows maxCellWidth in
      try_log (
        images <~ loadAll (photos_list photos) ;;
        let lay := layoutOf cols rows dpi marginPercent maxCellWidth images in
        canvas <~ createCanvas (canvasWidth lay) (canvasHeight lay) ;;
        canvas <~ draw canvas
          (FillRect white 0 0 (inject_Z (canvasWidth lay)) (inject_Z (canvasHeight lay))) ;;
        canvas <~ forEachM
          (fun img index cv => draw cv (drawPlaced img (gridPlacement rows lay img index)))
          images 0%Z canvas ;;
        toDataURL canvas).

End Engine.

(** ** Vocabulary of the statements *)

(** The fields of [grid] as the code sees them: absent unless [grid] is a
    descriptor object that carries them. *)
Definition grid_cols (grid : GridArg) : option Z :=
  match grid with
  | GridObj g => cols g
  | _ => None
  end.

Definition grid_rows (grid : GridArg) : option Z :=
  match grid with
  | GridObj g => rows g
  | _ => None
  end.

(** The key under which [grid] is looked up in the catalog. *)
Definition grid_key (grid : GridArg) : string :=
  match grid with
  | GridId s => s
  | GridObj g => property_key (id g)
  | _ => "undefined"
  end.

(** Whether [grid] routes to the strip compositor. *)
Definition routes_to_strip (grid : GridArg) : bool :=
  match grid with
  | GridObj g => (is_strip_id (id g) || isStripGrid g)%bool
  | _ => false
  end.

Definition page_of (size : StandardSize) : PageSizeConfig :=
  mkPage (w size) (h size) (name size).


(** [map] with the index that [forEach] hands to its callback. *)
Fixpoint imap {A B} (f : A -> Z -> B) (l : list A) (index : Z) : list B :=
  match l with
  | [] => []
  | a :: l' => f a index :: imap f l' (index + 1)%Z
  end.

(** The strip canvas the strip compositor ends up with: white, then the
    photos in index order. *)
Definition stripCanvasOf `{Browser} (images : list Image) (dpi : Q) : Canvas :=
  let stripWidthPx := Math.round (2 * dpi) in
  let stripHeightPx := Math.round (6 * dpi) in
  let cellHeightPx := Math.round (6 / 4 * dpi) in
  mkCanvas stripWidthPx stripHeightPx
    (FillRect white 0 0 (inject_Z stripWidthPx) (inject_Z stripHeightPx)
     :: imap (fun img index =>
                drawPlaced img (stripPlacement stripWidthPx cellHeightPx img index))
             images 0%Z).

(** The final canvas of the strip compositor: white, then the strip
    canvas twice. *)
Definition stripCompositeOf `{Browser} (images : list Image) (dpi : Q) : Canvas :=
  let stripWidthPx := Math.round (2 * dpi) in
  let canvasWidthPx := Math.round (4 * dpi) in
  let canvasHeightPx := Math.round (6 * dpi) in
  mkCanvas canvasWidthPx canvasHeightPx
    [ FillRect white 0 0 (inject_Z canvasWidthPx) (inject_Z canvasHeightPx);
      drawImage3 (bitmap (stripCanvasOf images dpi)) 0 0;
      drawImage3 (bitmap (stripCanvasOf images dpi)) stripWidthPx 0 ].

(** The canvas the grid compositor ends up with. *)
Definition gridCompositeOf `{Browser} (rows : Z) (lay : Layout) (images : list Image)
  : Canvas :=
  mkCanvas (canvasWidth lay) (canvasHeight lay)
    (FillRect white 0 0 (inject_Z (canvasWidth lay)) (inject_Z (canvasHeight lay))
     :: imap (fun img index => drawPlaced img (gridPlacement rows lay img index))
             images 0%Z).

(** The log of one canvas: its creation, then its calls. *)
Definition canvasLog `{Browser} (cv : Canvas) : list Event :=
  CreateCanvas (cv_width cv) (cv_height cv) :: map Draw (cv_ops cv).

(** The page size resolved for [grid]. *)
Definition pageFor (grid : GridArg) : PageSizeConfig :=
  match getPageSizeFromGrid grid with
  | Normal page => page
  | Throw _ => mkPage 4 6 "4x6"
  end.

(** The layout the grid compositor computes for a request. *)
Definition gridLayout `{Browser} (grid : GridArg) (dpi marginPercent : Q)
  (maxCellWidth : option Q) (images : list Image) : Layout :=
  let cols := count (grid_cols grid) in
  let rows := count (grid_rows grid) in
  layoutOf cols rows dpi marginPercent
           (resolveMaxCellWidth (pageFor grid) cols rows maxCellWidth) images.

(** The number of photos a grid asks for. *)
Definition expected_count (grid : GridArg) : Z :=
  if routes_to_strip grid then 4%Z
  else (count (grid_cols grid) * count (grid_rows grid))%Z.

(** The requests [createGridComposite] refuses: no photos, a column or
    row count that is missing or zero, or a photo count other than the
    one the grid asks for. *)
Definition invalid_input (photos : option (list string)) (grid : GridArg) : Prop :=
  photos_empty photos = true \/
  count_falsy (grid_cols grid) = true \/
  count_falsy (grid_rows grid) = true \/
  photos_length photos <> expected_count grid.

(** The message of the count-mismatch error. *)
Definition mismatch_message (photos : option (list string)) (grid : GridArg) : string :=
  if routes_to_strip grid
  then "Strip grid requires exactly 4 photos, got " ++ show (photos_length photos)
  else "Expected " ++ show (expected_count grid) ++ " photos, got "
       ++ show (photos_length photos).

(** The message of the error a refused request is rejected with. *)
Definition refusal_message (photos : option (list string)) (grid : GridArg) : string :=
  if photos_empty photos then "No photos provided"
  else if (count_falsy (grid_cols grid) || count_falsy (grid_rows grid))%bool
       then "Invalid grid configuration"
       else mismatch_message photos grid.

(** The images handed to [drawImage], in the order of the calls. *)
Definition drawn_images `{Browser} (log : list Event) : list Image :=
  flat_map (fun ev =>
              match ev with
              | Draw (DrawImage img _ _ _ _ _ _ _ _) => [img]
              | _ => []
              end) log.

(** No canvas was created, drawn on or encoded. *)
Definition no_canvas_work `{Browser} (log : list Event) : Prop :=
  forall ev, In ev log -> ev = ConsoleError \/ exists src, ev = LoadImage src.

(** The top-left corner of the grid cell in column [col] and row [row]. *)
Definition cellX (lay : Layout) (col : Z) : Z :=
  (marginSize lay + col * (cellWidthPx lay + marginSize lay))%Z.
Definition cellY (lay : Layout) (row : Z) : Z :=
  (marginSize lay + row * (cellHeightPx lay + marginSize lay))%Z.

(** The draw rectangle lies in the cell box. *)
Definition inside_cell (x y : Q) (cw ch : Z) (p : Placement) : Prop :=
  x <= drawX p /\ drawX p + drawWidth p <= x + inject_Z cw /\
  y <= drawY p /\ drawY p + drawHeight p <= y + inject_Z ch.

(** The draw rectangle has the aspect ratio of the image. *)
Definition keeps_aspect (imageAspect : Q) (p : Placement) : Prop :=
  0 < drawWidth p /\ 0 < drawHeight p /\ drawWidth p / drawHeight p == imageAspect.

(** Full cell width, flush left, the same gap above and below. *)
Definition fills_width (x y : Q) (cw ch : Z) (p : Placement) : Prop :=
  drawWidth p == inject_Z cw /\ drawX p == x /\
  drawY p - y == (y + inject_Z ch) - (drawY p + drawHeight p).

(** Full cell height, flush top, the same gap left and right. *)
Definition fills_height (x y : Q) (cw ch : Z) (p : Placement) : Prop :=
  drawHeight p == inject_Z ch /\ drawY p == y /\
  drawX p - x == (x + inject_Z cw) - (drawX p + drawWidth p).

(** The "contain" fit of an image of aspect ratio [imageAspect] in the
    cell box at [(x, y)] of [cw] by [ch] pixels. *)
Definition contain_fit (imageAspect x y : Q) (cw ch : Z) (p : Placement) : Prop :=
  inside_cell x y cw ch p /\
  keeps_aspect imageAspect p /\
  (inject_Z cw / inject_Z ch < imageAspect -> fills_width x y cw ch p) /\
  (imageAspect <= inject_Z cw / inject_Z ch -> fills_height x y cw ch p).

(** The uniform cell size in the words of the specification (section 4.3,
    step 3): a reduction over the photos, starting from the baseline, that
    keeps the largest cell height needed by a wide image
    ([maxCellWidth / aspect]) and the largest cell width needed by a tall
    image ([maxCellWidth * aspect]).  The pair is
    [(cell height, cell width)], as in [cellSizeInches]. *)
Definition perPhotoStep `{Browser} (maxCellWidth : Q) (st : Q * Q) (img : Image) : Q * Q :=
  if Qgtb (aspectOf img) 1
  then (Math.max (fst st) (maxCellWidth / aspectOf img), snd st)
  else (fst st, Math.max (snd st) (maxCellWidth * aspectOf img)).

Definition perPhotoCellSize `{Browser} (maxCellWidth : Q) (images : list Image) : Q * Q :=
  fold_left (perPhotoStep maxCellWidth) images (maxCellWidth, maxCellWidth).

(** The entry the first loop records for the photo at [index]. *)
Definition cellEntry `{Browser} (rows : Z) (maxCellWidth : Q) (img : Image) (index : Z)
  : (Z * Z) * CellDims :=
  (((index / rows)%Z, Z.rem index rows),
   mkDims (aspectOf img)
          (if Qgtb (aspectOf img) 1 then maxCellWidth else maxCellWidth / aspectOf img)
          (if Qgtb (aspectOf img) 1 then maxCellWidth / aspectOf img else maxCellWidth)).


Definition positive_size {pixel} (img : Bitmap pixel) : Prop :=
  (0 < width img)%Z /\ (0 < height img)%Z.



(** What is left of [createGridComposite] once the request has passed
    its checks. *)
Definition composeChecked `{Browser} (photos : option (list string)) (grid : GridArg)
  (dpi marginPercent : Q) (maxCellWidth : option Q) : Prog Canvas :=
  if routes_to_strip grid then
    match decodeAll (photos_list photos) with
    | Some images =>
        (map LoadImage (photos_list photos)
           ++ canvasLog (stripCanvasOf images dpi)
           ++ canvasLog (stripCompositeOf images dpi)
           ++ [ToDataURL],
         Normal (stripCompositeOf images dpi))
    | None => (map LoadImage (photos_list photos), Throw ErrorEvent)
    end
  else
    match decodeAll (photos_list photos) with
    | Some images =>
        let cv := gridCompositeOf (count (grid_rows grid))
                    (gridLayout grid dpi marginPercent maxCellWidth images) images in
        (map LoadImage (photos_list photos) ++ canvasLog cv ++ [ToDataURL], Normal cv)
    | None => (map LoadImage (photos_list photos) ++ [ConsoleError], Throw ErrorEvent)
    end.

(** ** A reference browser

    Pixels are optional colour codes ([None] is transparent), compositing
    keeps an opaque source, and [drawImage] resamples by nearest
    neighbour.  The decoder knows a handful of data URLs. *)

Definition over_opaque (src dst : option Z) : option Z :=
  match src with
  | Some c => Some c
  | None => dst
  end.

Definition nearest (b : Bitmap (option Z))
  (sx sy sw sh dx dy dw dh : Q) (x y : Z) : option (option Z) :=
  if (Qle_bool dx (inject_Z x) && Qltb (inject_Z x) (dx + dw)
      && Qle_bool dy (inject_Z y) && Qltb (inject_Z y) (dy + dh))%bool
  then
    let u := Qfloor (sx + (inject_Z x - dx) * (sw / dw)) in
    let v := Qfloor (sy + (inject_Z y - dy) * (sh / dh)) in
    if in_bounds (width b) (height b) u v then Some (px b u v) else None
  else None.

Definition gradient (w h : Z) : Bitmap (option Z) :=
  mkBitmap w h (fun x y => Some (x + 4096 * y)%Z).

Definition decode_reference (src : string) : option (Bitmap (option Z)) :=
  if string_dec src "data:wide" then Some (gradient 800 600)
  else if string_dec src "data:tall" then Some (gradient 600 800)
  else if string_dec src "data:square" then Some (gradient 500 500)
  else if string_dec src "data:panorama" then Some (gradient 3000 500)
  else if string_dec src "data:composite" then Some (gradient 1200 1800)
  else None.

Lemma Qle_bool_inject (a b : Z) : Qle_bool (inject_Z a) (inject_Z b) = (a <=? b)%Z.
Proof. unfold Qle_bool; simpl. now rewrite !Z.mul_1_r. Qed.

Lemma Qltb_inject_plus (a b c : Z) :
  Qltb (inject_Z a) (inject_Z b + inject_Z c) = (a <? b + c)%Z.
Proof.
  unfold Qltb, Qcompare, Z.ltb; simpl. rewrite !Z.mul_1_r.
  now destruct (a ?= b + c)%Z.
Qed.

Lemma nearest_unscaled (b : Bitmap (option Z)) (sx sy sw sh dx dy x y : Z) :
  nearest b (inject_Z sx) (inject_Z sy) (inject_Z sw) (inject_Z sh)
            (inject_Z dx) (inject_Z dy) (inject_Z sw) (inject_Z sh) x y
  = if (in_bounds sw sh (x - dx) (y - dy)
        && in_bounds (width b) (height b) (x - dx + sx) (y - dy + sy))%bool
    then Some (px b (x - dx + sx) (y - dy + sy))%Z
    else None.
Proof.
  unfold nearest.
  rewrite !Qle_bool_inject, !Qltb_inject_plus.
  assert (Hc : ((dx <=? x) && (x <? dx + sw) && (dy <=? y) && (y <? dy + sh))%Z
               = in_bounds sw sh (x - dx) (y - dy)).
  { unfold in_bounds.
    destruct (Z.leb_spec dx x), (Z.ltb_spec x (dx + sw)),
             (Z.leb_spec dy y), (Z.ltb_spec y (dy + sh)),
             (Z.leb_spec 0 (x - dx)), (Z.ltb_spec (x - dx) sw),
             (Z.leb_spec 0 (y - dy)), (Z.ltb_spec (y - dy) sh);
      simpl; try reflexivity; lia. }
  rewrite Hc.
  destruct (in_bounds sw sh (x - dx) (y - dy)) eqn:Hin; [|reflexivity].
  unfold in_bounds in Hin.
  apply andb_prop in Hin; destruct Hin as [Hin H4].
  apply andb_prop in Hin; destruct Hin as [Hin H3].
  apply andb_prop in Hin; destruct Hin as [H1 H2].
  apply Z.leb_le in H1, H3. apply Z.ltb_lt in H2, H4.
  assert (Hw : ~ inject_Z sw == 0).
  { intro E. unfold Qeq in E; simpl in E. lia. }
  assert (Hh : ~ inject_Z sh == 0).
  { intro E. unfold Qeq in E; simpl in E. lia. }
  assert (Eu : Qfloor (inject_Z sx + (inject_Z x - inject_Z dx) * (inject_Z sw / inject_Z sw))
               = (x - dx + sx)%Z).
  { rewrite <- (Qfloor_Z (x - dx + sx)). apply Qfloor_comp.
    unfold Z.sub. rewrite !inject_Z_plus, inject_Z_opp. field. exact Hw. }
  assert (Ev : Qfloor (inject_Z sy + (inject_Z y - inject_Z dy) * (inject_Z sh / inject_Z sh))
               = (y - dy + sy)%Z).
  { rewrite <- (Qfloor_Z (y - dy + sy)). apply Qfloor_comp.
    unfold Z.sub. rewrite !inject_Z_plus, inject_Z_opp. field. exact Hh. }
  rewrite Eu, Ev. reflexivity.
Qed.

Lemma decode_reference_size (src : string) (b : Bitmap (option Z)) :
  decode_reference src = Some b -> (0 < width b)%Z /\ (0 < height b)%Z.
Proof.
  unfold decode_reference.
  repeat match goal with
         | |- context [string_dec ?a ?b] => destruct (string_dec a b)
         end;
    intro E; inversion E; subst; simpl; split; reflexivity.
Qed.

Definition reference : Browser := {|
  pixel := option Z;
  white := Some 16777215%Z;
  transparent := None;
  over := over_opaque;
  sample := nearest;
  decode := decode_reference;
  over_blank := fun p => match p with Some _ => eq_refl | None => eq_refl end;
  sample_unscaled := nearest_unscaled;
  decode_size := decode_reference_size
|}.

(** Requests used in the worked instances: the 2 by 2 grid of the
    catalog with four photos, one of which may be broken. *)
Definition grid_4cut : GridArg :=
  GridObj (mkGrid (Some "4x6-4cut") (Some 2%Z) (Some 2%Z) false).

Definition four_photos : list string :=
  ["data:wide"; "data:tall"; "data:square"; "data:panorama"].

Definition four_images : list (Bitmap (option Z)) :=
  [gradient 800 600; gradient 600 800; gradient 500 500; gradient 3000 500].

Definition broken_photos : list string :=
  ["data:wide"; "data:broken"; "data:square"; "data:panorama"].

(** * The screens around the compositor

    [CameraSettings.jsx], [GridSelection.jsx] and the edit screen of
    [CameraFilter.jsx].  A handler is a function from the state it reads
    (and the event it is given) to the state it sets; a screen is driven by
    a list of user actions. *)

(** ** CameraSettings: how many photos a grid asks for *)

Definition is_id (gridId : option string) (s : string) : bool :=
  match gridId with
  | Some s' => if string_dec s' s then true else false
  | None => false
  end.

(** The chain of [if (... === '4x6-single') return 1; ...] that
    [getGridCellCount] runs on the string and, again, on [grid.id]. *)
Definition cellCountOfId (gridId : option string) : Z :=
  if is_id gridId "4x6-single" then 1%Z
  else if is_id gridId "4x6-2cut" then 2%Z
  else if is_id gridId "4x6-4cut" then 4%Z
  else if is_id gridId "4x6-6cut" then 6%Z
  else if is_id gridId "2x4-vertical-2" then 2%Z
  else if is_id gridId "5x7-6cut" then 6%Z
  else 1%Z.

(** [getGridCellCount], as a function of [sessionData?.selectedGrid]. *)
Definition getGridCellCount (selectedGrid : GridArg) : Z :=
  let grid := selectedGrid in
  if grid_falsy grid then 1%Z
  else
    match grid with
    | GridId s =>
        if string_dec s "strip-grid" then 4%Z
        else cellCountOfId (Some s)
    | GridObj g =>
        if (is_strip_id (id g) || isStripGrid g)%bool then 4%Z
        else if (negb (count_falsy (cols g)) && negb (count_falsy (rows g)))%bool
             then (count (cols g) * count (rows g))%Z
             else cellCountOfId (id g)
    | _ => 1%Z
    end.

(** ** GridSelection: the layouts on offer *)

Record GridOption : Type := mkOption {
  opt_id : string;
  opt_name : string;
  opt_desc : string;
  opt_cols : Z;
  opt_rows : Z;
  printWidth : Q;
  printHeight : Q
}.

Definition grids : list GridOption :=
  [ mkOption "4x6-single" "SINGLE" "Single photo" 1 1 4 6;
    mkOption "4x6-2cut" "2 CUT" "2 photos vertical" 1 2 4 6;
    mkOption "4x6-4cut" "4 CUT" "4 grid cells" 2 2 4 6;
    mkOption "4x6-6cut" "6 CUT" "6 grid cells" 2 3 4 6 ].

(** [grids.find(g => g.id === selected)] *)
Definition findGrid (selected : string) : option GridOption :=
  find (fun g => if string_dec (opt_id g) selected then true else false) grids.

(** The object [handleContinue] stores as [selectedGrid], seen through
    the fields the other screens read ([id], [cols], [rows] and the absent
    [isStripGrid]). *)
Definition handleContinue (selected : string) : GridArg :=
  match findGrid selected with
  | Some g => GridObj (mkGrid (Some (opt_id g)) (Some (opt_cols g)) (Some (opt_rows g)) false)
  | None => GridUndefined
  end.

(** ** CameraSettings: collecting the photos *)

Record CaptureState : Type := mkCapture {
  capturedPhotos : list string;
  currentPhotoIndex : Z;
  hoveredPhotoIndex : option Z
}.

(** What a handler of the screen sends out. *)
Inductive CaptureOutput : Type :=
| SaveCameraSettings                      (* updateSession({ cameraSettings }) *)
| SaveCapturedPhotos (photos : list string)   (* updateSession({ capturedPhotos }) *)
| NavigateTo (path : string).

Definition initialCapture : CaptureState := mkCapture [] 0 None.

(** [capturedPhotos.length === totalCells] *)
Definition isComplete (totalCells : Z) (st : CaptureState) : bool :=
  (Z.of_nat (List.length (capturedPhotos st)) =? totalCells)%Z.

(** [array.filter((_, i) => i !== index)] *)
Fixpoint filterIndex {A} (l : list A) (i index : Z) : list A :=
  match l with
  | [] => []
  | a :: l' =>
      if (i =? index)%Z then filterIndex l' (i + 1)%Z index
      else a :: filterIndex l' (i + 1)%Z index
  end.

(** [handleCapture]: [photoData] is the data URL of the filtered frame,
    [None] when the webcam gave no screenshot. *)
Definition handleCapture (totalCells : Z) (photoData : option string)
  (st : CaptureState) : CaptureState * list CaptureOutput :=
  match photoData with
  | None => (st, [SaveCameraSettings])
  | Some photoData =>
      let newPhotos := capturedPhotos st ++ [photoData] in
      let nextIndex := Z.of_nat (List.length newPhotos) in
      (mkCapture newPhotos nextIndex (hoveredPhotoIndex st),
       SaveCameraSettings ::
       (if (Z.of_nat (List.length newPhotos) =? totalCells)%Z
        then [SaveCapturedPhotos newPhotos; NavigateTo "/edit"]
        else []))
  end.

Definition handleDeletePhoto (index : Z) (st : CaptureState) : CaptureState :=
  let updatedPhotos := filterIndex (capturedPhotos st) 0 index in
  mkCapture updatedPhotos (Z.of_nat (List.length updatedPhotos)) None.

(** The "Remove Last" / "Back" button. *)
Definition handleRemoveLast (st : CaptureState) : CaptureState * list CaptureOutput :=
  if (0 <? Z.of_nat (List.length (capturedPhotos st)))%Z then
    let updatedPhotos := removelast (capturedPhotos st) in   (* slice(0, -1) *)
    (mkCapture updatedPhotos (Z.of_nat (List.length updatedPhotos)) (hoveredPhotoIndex st), [])
  else (st, [NavigateTo "/camera-filter"]).

(** What the user can do on the screen.  The capture button is disabled
    once the set is complete. *)
Inductive CaptureAction : Type :=
| ClickCapture (photoData : option string)
| ClickDelete (index : Z)
| ClickRemoveLast.

Definition captureStep (totalCells : Z) (st : CaptureState) (a : CaptureAction)
  : CaptureState * list CaptureOutput :=
  match a with
  | ClickCapture photoData =>
      if isComplete totalCells st then (st, [])
      else handleCapture totalCells photoData st
  | ClickDelete index => (handleDeletePhoto index st, [])
  | ClickRemoveLast => handleRemoveLast st
  end.

Fixpoint captureRun (totalCells : Z) (st : CaptureState) (actions : list CaptureAction)
  : CaptureState * list CaptureOutput :=
  match actions with
  | [] => (st, [])
  | a :: rest =>
      let (st', out) := captureStep totalCells st a in
      let (st'', out') := captureRun totalCells st' rest in
      (st'', out ++ out')
  end.

(** ** The edit screen: from the edited photos to the composite *)

Section EditScreen.

Context `{B : Browser}.

(** An image kept in the session: the data URL a canvas was encoded to,
    or one of the photo data URLs. *)
Inductive ImageRef : Type :=
| Encoded (cv : Canvas)
| Source (src : string).

Record SessionUpdate : Type := mkUpdate {
  editedPhotos : list string;
  compositeImage : option ImageRef;      (* [None] is [undefined] *)
  selectedGrid : GridArg
}.

(** What the last part of [handleNext] does besides computing. *)
Inductive EditEvent : Type :=
| Engine (ev : Event)                    (* a request of the compositor *)
| ConsoleLog (message : string)
| ConsoleErrorWith (message : string) (error : JsError)
| UpdateSession (update : SessionUpdate)
| Navigate (path : string).

(** Truthiness of a data URL: only the empty string is falsy, and a
    canvas never encodes to the empty string. *)
Definition image_truthy (image : option ImageRef) : bool :=
  match image with
  | Some (Encoded _) => true
  | Some (Source src) => if string_dec src "" then false else true
  | None => false
  end.

(** [finalPhotos[0]] *)
Definition firstPhoto (finalPhotos : list string) : option ImageRef :=
  match finalPhotos with
  | [] => None
  | src :: _ => Some (Source src)
  end.

(** [grid.cols * grid.rows], which is [NaN] ([None]) when a count is
    missing. *)
Definition cellProduct (grid : GridArg) : option Z :=
  match grid_cols grid, grid_rows grid with
  | Some c, Some r => Some (c * r)%Z
  | _, _ => None
  end.

(** [await createGridComposite(finalPhotos, grid, 300, 3)] inside
    [try { ...; console.log(done) } catch (error) { console.error(failed,
    error); ... }]: the events, and the composite if there is one. *)
Definition tryComposite (finalPhotos : list string) (grid : GridArg)
  (done failed : string) : list EditEvent * option Canvas :=
  match createGridComposite (Some finalPhotos) grid 300 3 None with
  | (log, Normal cv) => (map Engine log ++ [ConsoleLog done], Some cv)
  | (log, Throw error) => (map Engine log ++ [ConsoleErrorWith failed error], None)
  end.

(** [handleNext] from [const grid = ...] to its end, [finalPhotos] being
    the photos as edited; [sessionData] is an object. *)
Definition handleNext (finalPhotos : list string) (sessionGrid : GridArg)
  : list EditEvent :=
  let grid := if grid_falsy sessionGrid
              then GridObj (mkGrid (Some "4x6-single") (Some 1%Z) (Some 1%Z) false)
              else sessionGrid in
  let isStripGrid := routes_to_strip grid in
  let totalCells := if isStripGrid then Some 4%Z else cellProduct grid in
  let len := Z.of_nat (List.length finalPhotos) in
  let '(events, compositeImage) :=
    if (isStripGrid && (len =? 4)%Z)%bool then
      match tryComposite finalPhotos grid
              "Strip-grid composite image created successfully"
              "Error creating strip-grid composite:" with
      | (events, Some cv) => (events, Some (Encoded cv))
      | (events, None) => (events, firstPhoto finalPhotos)
      end
    else if ((1 <? len)%Z
             && match totalCells with
                | Some n => ((1 <? n)%Z && (len =? n)%Z)%bool
                | None => false
                end)%bool then
      match tryComposite finalPhotos grid
              "Composite image created successfully"
              "Error creating composite:" with
      | (events, Some cv) => (events, Some (Encoded cv))
      | (events, None) => (events, None)
      end
    else if (len =? 1)%Z then ([], firstPhoto finalPhotos)
    else ([], None) in
  events ++
  [ UpdateSession
      (mkUpdate finalPhotos
                (if image_truthy compositeImage then compositeImage
                 else firstPhoto finalPhotos)
                grid);
    Navigate "/frame-selection" ].

(** The update [handleNext] sends to the session. *)
Definition sessionUpdateOf (events : list EditEvent) : option SessionUpdate :=
  match flat_map (fun ev => match ev with UpdateSession u => [u] | _ => [] end) events with
  | [u] => Some u
  | _ => None
  end.

(** The requests of the compositor among the events. *)
Definition engineLog (events : list EditEvent) : list Event :=
  flat_map (fun ev => match ev with Engine e => [e] | _ => [] end) events.

End EditScreen.

(** * The stickers of the edit screen

    The sticker handlers of the edit screen in [CameraFilter.jsx], from
    [getStickers] to [resetStickers]; [handleStickerDrag], which can write
    past the end of the array, is left out. *)

Module EditStickers.

(** One of [stickerOptions]. *)
Record StickerOption : Type := mkStickerOption {
  option_id : Z;
  option_src : string;
  option_type : string
}.

(** A sticker placed on a photo. *)
Record Sticker : Type := mkSticker {
  id : Z;
  src : string;
  type : string;
  x : Q;
  y : Q;
  size : Q;
  rotation : Q
}.

Record EditState : Type := mkEdit {
  allStickers : Z -> option (list Sticker);   (* the object keyed by photo index *)
  draggedSticker : option StickerOption;
  selectedPhotoIndex : option Z;
  selectedStickerIndex : option Z
}.

Definition initialEdit : EditState := mkEdit (fun _ => None) None None None.

(** [allStickers[index] || []] *)
Definition getStickers (st : EditState) (index : Z) : list Sticker :=
  match allStickers st index with
  | Some stickers => stickers
  | None => []
  end.

(** [{ ...allStickers, [photoIndex]: stickers }] *)
Definition withStickers (st : EditState) (photoIndex : Z) (stickers : list Sticker)
  : Z -> option (list Sticker) :=
  fun index => if (index =? photoIndex)%Z then Some stickers else allStickers st index.

(** [array[index]], [undefined] outside the array. *)
Definition at_index {A} (l : list A) (index : Z) : option A :=
  if (index <? 0)%Z then None else nth_error l (Z.to_nat index).

(** [array[index] = v] for an index inside the array. *)
Fixpoint replace_at {A} (l : list A) (index : nat) (v : A) : list A :=
  match l, index with
  | [], _ => []
  | _ :: l', O => v :: l'
  | a :: l', S n => a :: replace_at l' n v
  end.

(** [q] rounded towards zero. *)
Definition truncate (q : Q) : Z :=
  if Qle_bool 0 q then Qfloor q else Qceiling q.

(** [a % b] on numbers: what is left of [a] after taking out [b] a whole
    number of times, with the sign of [a]. *)
Definition remainder (a b : Q) : Q := a - b * inject_Z (truncate (a / b)).

(** [handleDragStart] *)
Definition handleDragStart (sticker : StickerOption) (st : EditState) : EditState :=
  mkEdit (allStickers st) (Some sticker) (selectedPhotoIndex st) (selectedStickerIndex st).

(** [handleDrop]: [container] is the top-left corner of the photo's
    element, if it is mounted; [now] is [Date.now()]. *)
Definition handleDrop (clientX clientY : Q) (container : option (Q * Q)) (now : Z)
  (photoIndex : Z) (st : EditState) : EditState :=
  match draggedSticker st with
  | None => st
  | Some dragged =>
      match container with
      | None => st
      | Some (containerLeft, containerTop) =>
          let x := clientX - containerLeft in
          let y := clientY - containerTop in
          let newSticker :=
            mkSticker now (option_src dragged) (option_type dragged) x y 80 0 in
          let currentStickers := getStickers st photoIndex in
          let newStickers := currentStickers ++ [newSticker] in
          mkEdit (withStickers st photoIndex newStickers) None (Some photoIndex)
                 (Some (Z.of_nat (List.length newStickers) - 1)%Z)
      end
  end.

(** [handleStickerDragStart], and the click on a sticker. *)
Definition handleStickerDragStart (photoIndex stickerIndex : Z) (st : EditState)
  : EditState :=
  mkEdit (allStickers st) (draggedSticker st) (Some photoIndex) (Some stickerIndex).

(** The click on a photo. *)
Definition selectPhoto (photoIndex : Z) (st : EditState) : EditState :=
  mkEdit (allStickers st) (draggedSticker st) (Some photoIndex) (selectedStickerIndex st).

Definition deleteSticker (photoIndex stickerIndex : Z) (st : EditState) : EditState :=
  let currentStickers := getStickers st photoIndex in
  let updatedStickers := filterIndex currentStickers 0 stickerIndex in
  mkEdit (withStickers st photoIndex updatedStickers) (draggedSticker st)
         (selectedPhotoIndex st) None.

(** [resizeSticker]: reading [.size] of a missing sticker throws. *)
Definition resizeSticker (photoIndex stickerIndex : Z) (delta : Q) (st : EditState)
  : Completion EditState :=
  let currentStickers := getStickers st photoIndex in
  match at_index currentStickers stickerIndex with
  | None => Throw TypeError
  | Some s =>
      let resized :=
        mkSticker (id s) (src s) (type s) (x s) (y s)
                  (Math.max 40 (Math.min 200 (size s + delta))) (rotation s) in
      let updatedStickers := replace_at currentStickers (Z.to_nat stickerIndex) resized in
      Normal (mkEdit (withStickers st photoIndex updatedStickers) (draggedSticker st)
                     (selectedPhotoIndex st) (selectedStickerIndex st))
  end.

(** [rotateSticker]: reading [.rotation] of a missing sticker throws. *)
Definition rotateSticker (photoIndex stickerIndex : Z) (delta : Q) (st : EditState)
  : Completion EditState :=
  let currentStickers := getStickers st photoIndex in
  match at_index currentStickers stickerIndex with
  | None => Throw TypeError
  | Some s =>
      let rotated :=
        mkSticker (id s) (src s) (type s) (x s) (y s) (size s)
                  (remainder (rotation s + delta) 360) in
      let updatedStickers := replace_at currentStickers (Z.to_nat stickerIndex) rotated in
      Normal (mkEdit (withStickers st photoIndex updatedStickers) (draggedSticker st)
                     (selectedPhotoIndex st) (selectedStickerIndex st))
  end.

Definition resetStickers (photoIndex : Z) (st : EditState) : EditState :=
  mkEdit (withStickers st photoIndex []) (draggedSticker st) (selectedPhotoIndex st) None.

(** What the user can do with stickers on the screen.  The sticker
    buttons are rendered only while a photo and a sticker are selected, the
    clear button only while a photo is, and a sticker can be clicked only
    where one is rendered. *)
Inductive Click : Type :=
| DragOption (sticker : StickerOption)
| DropOn (clientX clientY : Q) (container : option (Q * Q)) (now : Z) (photoIndex : Z)
| ClickPhoto (photoIndex : Z)
| ClickSticker (photoIndex stickerIndex : Z)
| ClickSmaller
| ClickLarger
| ClickRotateLeft
| ClickRotateRight
| ClickDelete
| ClickClear.

Definition withSelection (st : EditState)
  (handler : Z -> Z -> Completion EditState) : Completion EditState :=
  match selectedPhotoIndex st, selectedStickerIndex st with
  | Some photoIndex, Some stickerIndex => handler photoIndex stickerIndex
  | _, _ => Normal st
  end.

Definition click (st : EditState) (c : Click) : Completion EditState :=
  match c with
  | DragOption sticker => Normal (handleDragStart sticker st)
  | DropOn clientX clientY container now photoIndex =>
      Normal (handleDrop clientX clientY container now photoIndex st)
  | ClickPhoto photoIndex => Normal (selectPhoto photoIndex st)
  | ClickSticker photoIndex stickerIndex =>
      match at_index (getStickers st photoIndex) stickerIndex with
      | Some _ => Normal (handleStickerDragStart photoIndex stickerIndex st)
      | None => Normal st
      end
  | ClickSmaller =>
      withSelection st (fun photoIndex stickerIndex =>
        resizeSticker photoIndex stickerIndex (-(10)) st)
  | ClickLarger =>
      withSelection st (fun photoIndex stickerIndex =>
        resizeSticker photoIndex stickerIndex 10 st)
  | ClickRotateLeft =>
      withSelection st (fun photoIndex stickerIndex =>
        rotateSticker photoIndex stickerIndex (-(15)) st)
  | ClickRotateRight =>
      withSelection st (fun photoIndex stickerIndex =>
        rotateSticker photoIndex stickerIndex 15 st)
  | ClickDelete =>
      withSelection st (fun photoIndex stickerIndex =>
        Normal (deleteSticker photoIndex stickerIndex st))
  | ClickClear =>
      match selectedPhotoIndex st with
      | Some photoIndex => Normal (resetStickers photoIndex st)
      | None => Normal st
      end
  end.

(** A handler that throws leaves the state as it was. *)
Definition settle (st : EditState) (c : Completion EditState) : EditState :=
  match c with
  | Normal st' => st'
  | Throw _ => st
  end.

Definition clicks (st : EditState) (cs : list Click) : EditState :=
  fold_left (fun st c => settle st (click st c)) cs st.

(** Every sticker has a size from 40 to 200 and a rotation strictly
    between -360 and 360 degrees. *)
Definition well_formed (st : EditState) : Prop :=
  forall photoIndex s,
    In s (getStickers st photoIndex) ->
    40 <= size s /\ size s <= 200 /\ - (360) < rotation s /\ rotation s < 360.

(** A worked instance: the star dragged onto the first photo, whose element
    has its corner at (20, 10), and dropped with the pointer at (120, 90). *)
Definition star : StickerOption := mkStickerOption 2 "⭐" "emoji".

Definition star_dragged : EditState := handleDragStart star initialEdit.

Definition star_dropped : EditState :=
  clicks initialEdit [DragOption star; DropOn 120 90 (Some (20, 10)) 1700000000000 0].

Definition the_star : Sticker :=
  mkSticker 1700000000000 "⭐" "emoji" (120 - 20) (90 - 10) 80 0.

End EditStickers.

(** * Properties *)

(** ** The page-size resolver *)

Lemma Qltb_lt (a b : Q) : Qltb a b = true <-> a < b.
Proof.
  unfold Qltb. rewrite Qlt_alt.
  destruct (a ?= b); split; intro E; try reflexivity; discriminate E.
Qed.

Lemma Qltb_ge (a b : Q) : Qltb a b = false <-> b <= a.
Proof.
  split; intro E.
  - apply Qnot_lt_le. intro L. apply Qltb_lt in L. congruence.
  - destruct (Qltb a b) eqn:L; [|reflexivity].
    apply Qltb_lt in L. exfalso. exact (Qle_not_lt _ _ E L).
Qed.









Lemma getPageSizeFromGrid_truthy (grid : GridArg) :
  grid_falsy grid = false ->
  getPageSizeFromGrid grid
  = match lookup gridToPageSize (grid_key grid) with
    | Some page => Normal page
    | None =>
        Normal (page_of (closestSize (candidateWidth (or_one (grid_cols grid)))
                                     (candidateHeight (or_one (grid_rows grid)))))
    end.
Proof.
  intro Hf. unfold getPageSizeFromGrid. rewrite Hf.
  destruct grid as [| |s|g]; try discriminate Hf;
    cbv beta iota delta [cbind read_field grid_key grid_cols grid_rows property_key];
    match goal with |- context [lookup ?m ?k] => destruct (lookup m k) end;
    reflexivity.
Qed.





(** ** Running the compositors *)

Lemma forEachM_draw `{Browser} (g : Image -> Z -> DrawOp) :
  forall (l : list Image) (k : Z) (cv : Canvas),
    forEachM (fun img index cv => draw cv (g img index)) l k cv
    = (map Draw (imap g l k),
       Normal (mkCanvas (cv_width cv) (cv_height cv) (cv_ops cv ++ imap g l k))).
Proof.
  induction l as [|img l IH]; intros k cv; simpl.
  - unfold ret. rewrite app_nil_r. now destruct cv.
  - unfold bind, draw. rewrite IH. simpl. now rewrite <- app_assoc.
Qed.

Lemma createStripGridComposite_run `{Browser}
  (photos : list string) (images : list Image) (dpi : Q) :
  Z.of_nat (List.length photos) = 4%Z ->
  decodeAll photos = Some images ->
  createStripGridComposite (Some photos) dpi
  = (map LoadImage photos
       ++ canvasLog (stripCanvasOf images dpi)
       ++ canvasLog (stripCompositeOf images dpi)
       ++ [ToDataURL],
     Normal (stripCompositeOf images dpi)).
Proof.
  intros Hlen Hdec. unfold createStripGridComposite.
  rewrite Hlen. cbv zeta. simpl negb. cbv iota.
  unfold loadAll. rewrite Hdec.
  unfold bind at 1. unfold createCanvas. unfold bind at 1.
  unfold draw at 1. unfold bind at 1. rewrite forEachM_draw.
  reflexivity.
Qed.

Lemma createStripGridComposite_fails `{Browser} (photos : list string) (dpi : Q) :
  Z.of_nat (List.length photos) = 4%Z ->
  decodeAll photos = None ->
  createStripGridComposite (Some photos) dpi
  = (map LoadImage photos, Throw ErrorEvent).
Proof.
  intros Hlen Hdec. unfold createStripGridComposite.
  rewrite Hlen. cbv zeta. simpl negb. cbv iota.
  unfold loadAll. rewrite Hdec. reflexivity.
Qed.

Lemma getPageSizeFromGrid_pageFor (grid : GridArg) :
  getPageSizeFromGrid grid = Normal (pageFor grid).
Proof.
  unfold pageFor. destruct (grid_falsy grid) eqn:Hf.
  - unfold getPageSizeFromGrid. now rewrite Hf.
  - rewrite (getPageSizeFromGrid_truthy grid Hf).
    now destruct (lookup gridToPageSize (grid_key grid)).
Qed.

Lemma bind_lift `{Browser} {A C} (a : A) (f : A -> Prog C) :
  bind (lift (Normal a)) f = f a.
Proof. unfold bind, lift. now destruct (f a). Qed.

Lemma bind_ret `{Browser} {A C} (a : A) (f : A -> Prog C) :
  bind (ret a) f = f a.
Proof. unfold bind, ret. now destruct (f a). Qed.

Lemma createGridComposite_checked `{Browser} (photos : option (list string))
  (grid : GridArg) (dpi marginPercent : Q) (maxCellWidth : option Q) :
  ~ invalid_input photos grid ->
  createGridComposite photos grid dpi marginPercent maxCellWidth
  = composeChecked photos grid dpi marginPercent maxCellWidth.
Proof.
  intro Hvalid. unfold invalid_input in Hvalid.
  destruct (photos_empty photos) eqn:Hp; [exfalso; tauto|].
  destruct (count_falsy (grid_cols grid)) eqn:Hc; [exfalso; tauto|].
  destruct (count_falsy (grid_rows grid)) eqn:Hr; [exfalso; tauto|].
  assert (Hn : photos_length photos = expected_count grid).
  { destruct (Z.eq_dec (photos_length photos) (expected_count grid)); tauto. }
  clear Hvalid.
  destruct grid as [| |s|g]; try discriminate Hc.
  destruct photos as [l|]; [|discriminate Hp].
  unfold createGridComposite, composeChecked. rewrite Hp.
  simpl in Hc, Hr. cbn [grid_falsy read_field read_flag].
  rewrite bind_lift. rewrite Hc. rewrite bind_lift. rewrite Hr. rewrite bind_lift.
  cbn [photos_list]. unfold expected_count in Hn. unfold routes_to_strip in *.
  destruct (is_strip_id (id g)) eqn:Hid; cbn [orb] in *.
  - cbv iota. rewrite bind_ret. rewrite Hn. cbn [Z.eqb Pos.eqb negb].
    simpl in Hn.
    destruct (decodeAll l) as [images|] eqn:Hdec.
    + now apply createStripGridComposite_run.
    + now apply createStripGridComposite_fails.
  - cbv iota. rewrite bind_lift.
    destruct (isStripGrid g) eqn:Hflag.
    + rewrite Hn. cbn [Z.eqb Pos.eqb negb]. simpl in Hn.
      destruct (decodeAll l) as [images|] eqn:Hdec.
      * now apply createStripGridComposite_run.
      * now apply createStripGridComposite_fails.
    + cbn [grid_cols grid_rows] in Hn. rewrite Hn, Z.eqb_refl. cbn [negb].
      rewrite getPageSizeFromGrid_pageFor. rewrite bind_lift.
      unfold loadAll.
      destruct (decodeAll l) as [images|] eqn:Hdec.
      * unfold bind at 1. unfold createCanvas. unfold bind at 1.
        unfold draw at 1. unfold bind at 1. rewrite forEachM_draw.
        reflexivity.
      * reflexivity.
Qed.

Lemma createGridComposite_refused `{Browser} (photos : option (list string))
  (grid : GridArg) (dpi marginPercent : Q) (maxCellWidth : option Q) :
  invalid_input photos grid ->
  createGridComposite photos grid dpi marginPercent maxCellWidth
  = ([], Throw (Error (refusal_message photos grid))).
Proof.
  intro Hinv. unfold createGridComposite, refusal_message.
  destruct (photos_empty photos) eqn:Hp; [reflexivity|].
  destruct grid as [| |s|g]; try reflexivity.
  - cbn [grid_falsy]. destruct (string_dec s ""); reflexivity.
  - cbn [grid_falsy read_field grid_cols grid_rows]. rewrite bind_lift.
    destruct (count_falsy (cols g)) eqn:Hc; [reflexivity|].
    rewrite bind_lift.
    destruct (count_falsy (rows g)) eqn:Hr; [reflexivity|].
    rewrite bind_lift. cbn [orb read_flag].
    assert (Hn : photos_length photos <> expected_count (GridObj g)).
    { destruct Hinv as [E | [E | [E | E]]]; try exact E; simpl in E; congruence. }
    unfold mismatch_message. unfold expected_count in *.
    unfold routes_to_strip in *.
    destruct (is_strip_id (id g)) eqn:Hid; cbn [orb] in *.
    + cbv iota. rewrite bind_ret. apply Z.eqb_neq in Hn. now rewrite Hn.
    + cbv iota. rewrite bind_lift.
      destruct (isStripGrid g) eqn:Hflag;
        cbn [grid_cols grid_rows] in *; apply Z.eqb_neq in Hn; now rewrite Hn.
Qed.


Lemma composeChecked_no_Error `{Browser} (photos : option (list string))
  (grid : GridArg) (dpi marginPercent : Q) (maxCellWidth : option Q) (msg : string) :
  snd (composeChecked photos grid dpi marginPercent maxCellWidth) <> Throw (Error msg).
Proof.
  unfold composeChecked.
  destruct (routes_to_strip grid), (decodeAll (photos_list photos));
    simpl; discriminate.
Qed.


Lemma decodeAll_None `{Browser} (photos : list string) :
  (exists src, In src photos /\ decode src = None) -> decodeAll photos = None.
Proof.
  induction photos as [|p photos IH]; intros (src & Hin & Hd).
  - destruct Hin.
  - simpl. destruct Hin as [-> | Hin].
    + now rewrite Hd.
    + rewrite IH by (exists src; now split). now destruct (decode p).
Qed.

Lemma decodeAll_Some `{Browser} (photos : list string) :
  forall images, decodeAll photos = Some images ->
                 Forall2 (fun src img => decode src = Some img) photos images.
Proof.
  induction photos as [|p photos IH]; simpl; intros images E.
  - inversion E. constructor.
  - destruct (decode p) as [img|] eqn:Hd; [|discriminate E].
    destruct (decodeAll photos) as [imgs|]; [|discriminate E].
    inversion E. constructor; [exact Hd | now apply IH].
Qed.

Lemma drawn_images_loads `{Browser} (photos : list string) :
  drawn_images (map LoadImage photos) = [].
Proof. induction photos; simpl; auto. Qed.

Lemma drawn_images_placed `{Browser} (place : Image -> Z -> Placement) :
  forall (images : list Image) (k : Z),
    drawn_images (map Draw (imap (fun img index => drawPlaced img (place img index))
                                 images k))
    = images.
Proof.
  induction images as [|img images IH]; intro k; [reflexivity|].
  cbn [imap map]. unfold drawn_images. cbn [flat_map drawPlaced app].
  f_equal. apply IH.
Qed.

(** C8.  For a request that passes the checks: if one photo fails to
    decode, the compositor (grid path and strip path alike) is rejected
    with the error event of the failed load, returns no canvas, and has
    created, drawn on and encoded no canvas; if all photos decode, it
    returns a canvas, image [i] being the decoding of photo [i], and the
    photos are the first images drawn, in index order. *)
Theorem decode_failure_aborts `{Browser} :
  forall (photos : option (list string)) (grid : GridArg)
         (dpi marginPercent : Q) (maxCellWidth : option Q),
    ~ invalid_input photos grid ->
    let run := createGridComposite photos grid dpi marginPercent maxCellWidth in
    ((exists src, In src (photos_list photos) /\ decode src = None) ->
     snd run = Throw ErrorEvent /\ no_canvas_work (fst run)) /\
    (forall images,
       decodeAll (photos_list photos) = Some images ->
       Forall2 (fun src img => decode src = Some img) (photos_list photos) images /\
       (exists cv, snd run = Normal cv) /\
       (exists rest, drawn_images (fst run) = images ++ rest)).
Proof.
  intros photos grid dpi marginPercent maxCellWidth Hv run. subst run.
  rewrite (createGridComposite_checked _ _ _ _ _ Hv). unfold composeChecked. split.
  - intro Hbad. rewrite (decodeAll_None _ Hbad).
    destruct (routes_to_strip grid); simpl; (split; [reflexivity|]);
      intros ev Hev; try apply in_app_or in Hev.
    + apply in_map_iff in Hev. destruct Hev as (src & <- & _). right. now exists src.
    + destruct Hev as [Hev | [<- | []]]; [|now left].
      apply in_map_iff in Hev. destruct Hev as (src & <- & _). right. now exists src.
  - intros images Hdec. rewrite Hdec. split; [now apply decodeAll_Some|].
    destruct (routes_to_strip grid); cbv zeta; cbn [fst snd];
      (split; [eexists; reflexivity|]).
    + exists [bitmap (stripCanvasOf images dpi); bitmap (stripCanvasOf images dpi)].
      unfold drawn_images. rewrite !flat_map_app.
      fold (drawn_images (map LoadImage (photos_list photos))).
      rewrite drawn_images_loads. unfold canvasLog, stripCanvasOf. cbn [cv_ops map flat_map app].
      match goal with
      | |- context [flat_map ?f (map Draw (imap ?g images 0%Z))] =>
          change (flat_map f (map Draw (imap g images 0%Z)))
            with (drawn_images (map Draw (imap g images 0%Z)))
      end.
      now rewrite drawn_images_placed.
    + exists []. rewrite app_nil_r.
      unfold drawn_images. rewrite !flat_map_app.
      fold (drawn_images (map LoadImage (photos_list photos))).
      rewrite drawn_images_loads. unfold canvasLog, gridCompositeOf. cbn [cv_ops map flat_map app].
      match goal with
      | |- context [flat_map ?f (map Draw (imap ?g images 0%Z))] =>
          change (flat_map f (map Draw (imap g images 0%Z)))
            with (drawn_images (map Draw (imap g images 0%Z)))
      end.
      rewrite drawn_images_placed. now rewrite app_nil_r.
Qed.

(** ** Aspect-fit placement *)

Lemma inject_Z_pos (z : Z) : (0 < z)%Z -> 0 < inject_Z z.
Proof. intro Hz. unfold Qlt; simpl. lia. Qed.

Lemma aspectOf_pos `{Browser} (img : Image) :
  (0 < width img)%Z -> (0 < height img)%Z -> 0 < aspectOf img.
Proof.
  intros Hw Hh. unfold aspectOf.
  apply Qlt_shift_div_l; [now apply inject_Z_pos|].
  rewrite Qmult_0_l. now apply inject_Z_pos.
Qed.

(** The two branches of the fit, on the numbers alone. *)
Lemma wide_branch (a W Hh : Q) :
  0 < a -> 0 < W -> 0 < Hh -> W / Hh < a ->
  0 < W / a /\ W / a < Hh /\ W / (W / a) == a.
Proof.
  intros Ha HW HH Hwide.
  assert (Hlt : W < Hh * a).
  { setoid_replace W with (W / Hh * Hh) at 1 by (field; lra).
    rewrite (Qmult_comm Hh a). apply Qmult_lt_compat_r; assumption. }
  repeat split.
  - apply Qlt_shift_div_l; [assumption | lra].
  - apply Qlt_shift_div_r; assumption.
  - field. split; lra.
Qed.

Lemma tall_branch (a W Hh : Q) :
  0 < a -> 0 < W -> 0 < Hh -> a <= W / Hh ->
  0 < Hh * a /\ Hh * a <= W /\ Hh * a / Hh == a.
Proof.
  intros Ha HW HH Htall.
  repeat split.
  - apply Qmult_lt_0_compat; assumption.
  - setoid_replace W with (Hh * (W / Hh)) by (field; lra).
    apply Qmult_le_l; assumption.
  - field. lra.
Qed.

(** Division by two, in the form linear arithmetic reads. *)
Ltac halves := unfold Qdiv; change (/ 2) with (1 # 2).

(** A placement whose components are those of the source's two branches
    is a contain fit. *)
Lemma contain_fit_branches (a x y : Q) (cw ch : Z) (p : Placement) :
  0 < a -> (0 < cw)%Z -> (0 < ch)%Z ->
  (inject_Z cw / inject_Z ch < a ->
   drawWidth p == inject_Z cw /\ drawHeight p == inject_Z cw / a /\
   drawX p == x /\ drawY p == y + (inject_Z ch - inject_Z cw / a) / 2) ->
  (a <= inject_Z cw / inject_Z ch ->
   drawHeight p == inject_Z ch /\ drawWidth p == inject_Z ch * a /\
   drawX p == x + (inject_Z cw - inject_Z ch * a) / 2 /\ drawY p == y) ->
  contain_fit a x y cw ch p.
Proof.
  intros Ha Hcw Hch Hwide Htall.
  apply inject_Z_pos in Hcw, Hch.
  unfold contain_fit, inside_cell, keeps_aspect, fills_width, fills_height.
  set (W := inject_Z cw) in *. set (Hh := inject_Z ch) in *.
  clearbody W Hh.
  destruct (Qlt_le_dec (W / Hh) a) as [Hc | Hc].
  - destruct (Hwide Hc) as (Ew & Eh & Ex & Ey).
    destruct (wide_branch a W Hh Ha Hcw Hch Hc) as (Hpos & Hfit & Hasp).
    rewrite Ew, Eh, Ex, Ey. clear Hwide Htall Ew Eh Ex Ey.
    split; [|split; [|split]].
    + set (d := W / a) in *. clearbody d. clear Hasp Hc. halves. repeat split; lra.
    + split; [exact Hcw | split; [exact Hpos | exact Hasp]].
    + intros _. set (d := W / a) in *. clearbody d. clear Hasp Hc. halves.
      repeat split; lra.
    + intro Hc'. exfalso. set (r := W / Hh) in *. clearbody r. clear Hasp. lra.
  - destruct (Htall Hc) as (Eh & Ew & Ex & Ey).
    destruct (tall_branch a W Hh Ha Hcw Hch Hc) as (Hpos & Hfit & Hasp).
    rewrite Ew, Eh, Ex, Ey. clear Hwide Htall Ew Eh Ex Ey.
    split; [|split; [|split]].
    + set (d := Hh * a) in *. clearbody d. clear Hasp Hc. halves. repeat split; lra.
    + split; [exact Hpos | split; [exact Hch | exact Hasp]].
    + intro Hc'. exfalso. set (r := W / Hh) in *. clearbody r. clear Hasp. lra.
    + intros _. set (d := Hh * a) in *. clearbody d. clear Hasp Hc. halves.
      repeat split; lra.
Qed.

Lemma placeInCell_fit (a x y : Q) (cw ch : Z) :
  0 < a -> (0 < cw)%Z -> (0 < ch)%Z ->
  contain_fit a x y cw ch (placeInCell a x y cw ch).
Proof.
  intros Ha Hcw Hch. apply contain_fit_branches; try assumption; intro Hc.
  - apply Qltb_lt in Hc. unfold placeInCell, Qgtb. rewrite Hc. simpl.
    repeat split; reflexivity.
  - apply Qltb_ge in Hc. unfold placeInCell, Qgtb. rewrite Hc. simpl.
    repeat split; reflexivity.
Qed.

Lemma gridPlacement_placeInCell `{Browser} (rows : Z) (lay : Layout)
  (img : Image) (index : Z) :
  gridPlacement rows lay img index
  = placeInCell (aspectOf img)
      (inject_Z (cellX lay (index / rows))) (inject_Z (cellY lay (Z.rem index rows)))
      (cellWidthPx lay) (cellHeightPx lay).
Proof. reflexivity. Qed.

Lemma stripPlacement_fit `{Browser} (cw ch : Z) (img : Image) (index : Z) :
  (0 < width img)%Z -> (0 < height img)%Z -> (0 < cw)%Z -> (0 < ch)%Z ->
  contain_fit (aspectOf img) 0 (inject_Z (index * ch)) cw ch
              (stripPlacement cw ch img index).
Proof.
  intros Hw Hh Hcw Hch.
  apply contain_fit_branches; try assumption; [now apply aspectOf_pos | |];
    intro Hc.
  - apply Qltb_lt in Hc. unfold stripPlacement, Qgtb. rewrite Hc. simpl.
    repeat split; reflexivity.
  - apply Qltb_ge in Hc. unfold stripPlacement, Qgtb. rewrite Hc. simpl.
    repeat split; try reflexivity. ring.
Qed.


(** ** The uniform cell size *)

Lemma map_has_absent (m : CellMap) (k : Z * Z) :
  (forall e, In e m -> fst e <> k) -> map_has m k = false.
Proof.
  induction m as [|[k' d] m IH]; intro Hm; simpl; [reflexivity|].
  destruct (key_eqb k k') eqn:E.
  - exfalso. apply (Hm (k', d)); [now left|].
    unfold key_eqb in E. apply andb_prop in E. destruct E as [E1 E2].
    apply Z.eqb_eq in E1, E2. destruct k, k'; simpl in *. congruence.
  - apply IH. intros e He. apply Hm. now right.
Qed.

Lemma cell_position_injective (rows j k : Z) :
  (0 < rows)%Z -> (0 <= j)%Z -> (0 <= k)%Z ->
  ((j / rows)%Z, Z.rem j rows) = ((k / rows)%Z, Z.rem k rows) -> j = k.
Proof.
  intros Hr Hj Hk E. inversion E as [[Ed Em]].
  rewrite !Z.rem_mod_nonneg in Em by lia.
  rewrite (Z.div_mod j rows), (Z.div_mod k rows) by lia.
  now rewrite Ed, Em.
Qed.

Lemma forEach_recordCell `{Browser} (rows : Z) (maxCellWidth : Q) :
  (0 < rows)%Z ->
  forall (images : list Image) (k : Z) (m : CellMap),
    (0 <= k)%Z ->
    (forall e, In e m ->
       exists j, (0 <= j < k)%Z /\ fst e = ((j / rows)%Z, Z.rem j rows)) ->
    forEach (recordCell rows maxCellWidth) images k m
    = m ++ imap (cellEntry rows maxCellWidth) images k.
Proof.
  intro Hr. induction images as [|img images IH]; intros k m Hk Hm; simpl.
  - now rewrite app_nil_r.
  - assert (Hfresh : map_has m ((k / rows)%Z, Z.rem k rows) = false).
    { apply map_has_absent. intros e He E.
      destruct (Hm e He) as (j & Hj & Ej). rewrite Ej in E.
      apply cell_position_injective in E; lia. }
    unfold recordCell at 2. rewrite Hfresh. cbn [negb].
    fold (cellEntry rows maxCellWidth img k).
    rewrite IH; [now rewrite <- app_assoc | lia |].
    intros e He. apply in_app_or in He. destruct He as [He | [<- | []]].
    + destruct (Hm e He) as (j & Hj & Ej). exists j. split; [lia | exact Ej].
    + exists k. split; [lia | reflexivity].
Qed.

Lemma fold_widen_entries `{Browser} (rows : Z) (maxCellWidth : Q) :
  forall (images : list Image) (k : Z) (st : Q * Q),
    fold_left (widen maxCellWidth) (imap (cellEntry rows maxCellWidth) images k) st
    = fold_left (perPhotoStep maxCellWidth) images st.
Proof.
  induction images as [|img images IH]; intros k st; simpl; [reflexivity|].
  now rewrite IH.
Qed.

(** The cell size computed through the map of cell positions is the
    reduction over the photos. *)
Lemma cellSizeInches_perPhoto `{Browser} (rows : Z) (maxCellWidth : Q)
  (images : list Image) :
  (0 < rows)%Z ->
  cellSizeInches rows maxCellWidth images = perPhotoCellSize maxCellWidth images.
Proof.
  intro Hr. unfold cellSizeInches, perPhotoCellSize. cbv zeta.
  rewrite (forEach_recordCell rows maxCellWidth Hr images 0 []);
    [| lia | intros e []].
  apply fold_widen_entries.
Qed.

Lemma Qmax_keeps_left (x y : Q) : y <= x -> Math.max x y = x.
Proof.
  intro Hle. unfold Math.max, Qmax, GenericMinMax.gmax.
  destruct (x ?= y) eqn:E; try reflexivity.
  apply Qlt_alt in E. exfalso. exact (Qle_not_lt _ _ Hle E).
Qed.

Lemma narrower_than_baseline (m a : Q) :
  0 < m -> 0 < a ->
  (1 < a -> m / a <= m) /\ (a <= 1 -> m * a <= m).
Proof.
  intros Hm Ha. split; intro Hc.
  - apply Qle_shift_div_r; [exact Ha|].
    setoid_replace m with (m * 1) at 1 by ring.
    apply Qmult_le_l; [exact Hm | lra].
  - setoid_replace m with (m * 1) at 2 by ring.
    apply Qmult_le_l; [exact Hm | exact Hc].
Qed.

(** With a positive baseline no photo widens the cell. *)
Lemma perPhotoCellSize_baseline `{Browser} (maxCellWidth : Q) (images : list Image) :
  0 < maxCellWidth ->
  Forall positive_size images ->
  perPhotoCellSize maxCellWidth images = (maxCellWidth, maxCellWidth).
Proof.
  intros Hm Hpos. unfold perPhotoCellSize.
  induction Hpos as [|img images [Hw Hh] _ IH]; simpl; [reflexivity|].
  assert (Ha : 0 < aspectOf img) by now apply aspectOf_pos.
  destruct (narrower_than_baseline maxCellWidth (aspectOf img) Hm Ha) as [Hwide Htall].
  unfold perPhotoStep at 2. cbn [fst snd].
  destruct (Qgtb (aspectOf img) 1) eqn:E.
  - apply Qltb_lt in E. rewrite Qmax_keeps_left by now apply Hwide. exact IH.
  - apply Qltb_ge in E. rewrite Qmax_keeps_left by now apply Htall. exact IH.
Qed.


Lemma Qmin_same (x : Q) : Math.min x x = x.
Proof.
  unfold Math.min, Qmin, GenericMinMax.gmin.
  now destruct (x ?= x).
Qed.

(** With a positive baseline the cells are square and the layout follows
    from the baseline, the resolution, the margin percentage and the
    counts. *)
Lemma layoutOf_baseline `{Browser} (cols rows : Z) (dpi marginPercent maxCellWidth : Q)
  (images : list Image) :
  (0 < rows)%Z -> 0 < maxCellWidth -> Forall positive_size images ->
  let cell := Math.round (maxCellWidth * dpi) in
  let m := Math.round (inject_Z cell * (marginPercent / 100)) in
  layoutOf cols rows dpi marginPercent maxCellWidth images
  = mkLayout cell cell m (m + (cell + m) * cols)%Z (m + (cell + m) * rows)%Z.
Proof.
  intros Hr Hm Hpos. unfold layoutOf.
  rewrite cellSizeInches_perPhoto, perPhotoCellSize_baseline by assumption.
  now rewrite Qmin_same.
Qed.



(** C2, as stated, fails in its middle part: with a positive baseline and
    images of positive size, no input makes a cell dimension exceed the
    baseline. *)
Lemma no_cell_enlargement :
  ~ exists (B : Browser) (rows : Z) (maxCellWidth : Q) (images : list Image),
      (0 < rows)%Z /\ 0 < maxCellWidth /\ Forall positive_size images /\
      (maxCellWidth < fst (cellSizeInches rows maxCellWidth images) \/
       maxCellWidth < snd (cellSizeInches rows maxCellWidth images)).
Proof.
  intros (B & rows & m & images & Hr & Hm & Hpos & Hbig).
  rewrite cellSizeInches_perPhoto, perPhotoCellSize_baseline in Hbig by assumption.
  simpl in Hbig. destruct Hbig as [Hbig | Hbig]; exact (Qlt_irrefl _ Hbig).
Qed.

(** C2, amended.  The uniform cell size the grid compositor computes is
    the reduction over all photos that keeps, together with the baseline,
    the largest [maxCellWidth / aspect] of the wide photos as cell height
    and the largest [maxCellWidth * aspect] of the tall photos as cell
    width.  With a positive baseline none of these exceeds the baseline,
    so the cell is exactly the baseline both ways; and when the cell is at
    least one pixel, every photo is placed in its cell as a contain fit,
    drawn whole. *)
Theorem cell_size_is_baseline `{Browser} :
  forall (cols rows : Z) (dpi marginPercent maxCellWidth : Q) (images : list Image),
    (0 < rows)%Z ->
    0 < maxCellWidth ->
    Forall positive_size images ->
    (0 < Math.round (maxCellWidth * dpi))%Z ->
    let lay := layoutOf cols rows dpi marginPercent maxCellWidth images in
    cellSizeInches rows maxCellWidth images = perPhotoCellSize maxCellWidth images /\
    cellSizeInches rows maxCellWidth images = (maxCellWidth, maxCellWidth) /\
    (forall (img : Image) (index : Z),
       In img images ->
       contain_fit (aspectOf img)
         (inject_Z (cellX lay (index / rows))) (inject_Z (cellY lay (Z.rem index rows)))
         (cellWidthPx lay) (cellHeightPx lay)
         (gridPlacement rows lay img index) /\
       drawPlaced img (gridPlacement rows lay img index)
       = DrawImage img 0 0 (inject_Z (width img)) (inject_Z (height img))
                   (drawX (gridPlacement rows lay img index))
                   (drawY (gridPlacement rows lay img index))
                   (drawWidth (gridPlacement rows lay img index))
                   (drawHeight (gridPlacement rows lay img index))).
Proof.
  intros cols rows dpi marginPercent maxCellWidth images Hr Hm Hpos Hpx lay.
  split; [now apply cellSizeInches_perPhoto | split].
  - rewrite cellSizeInches_perPhoto by assumption.
    now apply perPhotoCellSize_baseline.
  - intros img index Hin. split; [|reflexivity].
    rewrite gridPlacement_placeInCell.
    assert (Hlay : cellWidthPx lay = Math.round (maxCellWidth * dpi) /\
                   cellHeightPx lay = Math.round (maxCellWidth * dpi)).
    { subst lay. rewrite layoutOf_baseline by assumption. split; reflexivity. }
    destruct Hlay as [Ew Eh].
    rewrite Forall_forall in Hpos. destruct (Hpos img Hin) as [Hw Hh].
    apply placeInCell_fit; [now apply aspectOf_pos | now rewrite Ew | now rewrite Eh].
Qed.

(** ** Pixels *)



Lemma in_bounds_true (w h x y : Z) :
  in_bounds w h x y = true <-> (0 <= x < w)%Z /\ (0 <= y < h)%Z.
Proof.
  unfold in_bounds. rewrite !andb_true_iff, !Z.leb_le, !Z.ltb_lt. tauto.
Qed.


(** ** The strip compositor *)



(** ** Strip extraction *)

(** C9.  For a positive resolution, [extractStripFromComposite] starts one
    image load.  If the composite decodes, it returns a canvas of
    [round (2 * dpi)] by [round (6 * dpi)] pixels on which the composite
    was drawn once, unscaled, from [(0, 0)] to [(0, 0)]: every pixel of the
    canvas that the composite covers is the composite's pixel at the same
    coordinates, and the others stay blank.  If the composite does not
    decode, the promise is rejected with the load error and no canvas is
    created. *)
Theorem extract_copies_left_strip `{Browser} :
  forall (compositeImageDataUrl : string) (dpi : Q),
    0 < dpi ->
    let run := extractStripFromComposite compositeImageDataUrl dpi in
    let stripWidthPx := Math.round (2 * dpi) in
    let stripHeightPx := Math.round (6 * dpi) in
    (forall compositeImg,
       decode compositeImageDataUrl = Some compositeImg ->
       exists cv,
         run = (LoadImage compositeImageDataUrl :: canvasLog cv ++ [ToDataURL], Normal cv) /\
         cv_width cv = stripWidthPx /\
         cv_height cv = stripHeightPx /\
         cv_ops cv = [DrawImage compositeImg
                        0 0 (inject_Z stripWidthPx) (inject_Z stripHeightPx)
                        0 0 (inject_Z stripWidthPx) (inject_Z stripHeightPx)] /\
         forall x y,
           (0 <= x < stripWidthPx)%Z -> (0 <= y < stripHeightPx)%Z ->
           getPixel (bitmap cv) x y
           = Some (match getPixel compositeImg x y with
                   | Some p => p
                   | None => transparent
                   end)) /\
    (decode compositeImageDataUrl = None ->
     run = ([LoadImage compositeImageDataUrl],
            Throw (Error "Failed to load composite image"))).
Proof.
  intros url dpi Hdpi run sw sh. subst run. unfold extractStripFromComposite.
  cbv zeta. fold sw sh. unfold loadImage. split.
  - intros img Hdec. rewrite Hdec.
    exists (mkCanvas sw sh [DrawImage img 0 0 (inject_Z sw) (inject_Z sh)
                                      0 0 (inject_Z sw) (inject_Z sh)]).
    split; [reflexivity|].
    repeat (split; [reflexivity|]).
    intros x y Hx Hy. unfold getPixel at 1.
    cbn [bitmap cv_width cv_height width height cv_ops px app].
    replace (in_bounds sw sh x y) with true
      by (symmetry; apply in_bounds_true; lia).
    unfold pixels. cbn [fold_left]. unfold paint.
    change 0 with (inject_Z 0). rewrite sample_unscaled.
    rewrite !Z.sub_0_r, !Z.add_0_r.
    replace (in_bounds sw sh x y) with true
      by (symmetry; apply in_bounds_true; lia).
    cbn [andb]. unfold getPixel.
    destruct (in_bounds (width img) (height img) x y); [|reflexivity].
    now rewrite over_blank.
  - intro Hdec. now rewrite Hdec.
Qed.

(** ** Photo order *)

Lemma nth_error_imap {A C} (f : A -> Z -> C) :
  forall (l : list A) (i : nat) (k : Z) (a : A),
    nth_error l i = Some a ->
    nth_error (imap f l k) i = Some (f a (k + Z.of_nat i)%Z).
Proof.
  induction l as [|b l IH]; intros [|i] k a E; try discriminate E.
  - inversion E. simpl. now rewrite Z.add_0_r.
  - simpl in E. cbn [imap nth_error]. rewrite (IH i (k + 1)%Z a E).
    do 2 f_equal. lia.
Qed.





(** ** Worked instances on the reference browser *)


Lemma broken_photos_valid : ~ invalid_input (Some broken_photos) grid_4cut.
Proof.
  intros [F | [F | [F | F]]]; try discriminate F. apply F. reflexivity.
Defined.

Lemma four_images_positive : Forall positive_size four_images.
Proof. repeat constructor. Defined.


Lemma cell_size_is_baseline_witness :
  0 < 1.95 /\
  (0 < Math.round (1.95 * 300))%Z /\
  cellSizeInches (B := reference) 2 1.95 four_images = (1.95, 1.95).
Proof.
  split; [reflexivity | split; [reflexivity|]].
  exact (proj1 (proj2 (cell_size_is_baseline (H := reference) 2 2 300 2 1.95 four_images
                         eq_refl eq_refl four_images_positive eq_refl))).
Defined.




Lemma decode_failure_aborts_witness :
  ~ invalid_input (Some broken_photos) grid_4cut /\
  decode (Browser := reference) "data:broken" = None /\
  snd (createGridComposite (B := reference) (Some broken_photos) grid_4cut 300 2 None)
  = Throw ErrorEvent.
Proof.
  split; [exact broken_photos_valid | split; [reflexivity|]].
  refine (proj1 (proj1 (decode_failure_aborts (H := reference) (Some broken_photos)
                          grid_4cut 300 2 None broken_photos_valid) _)).
  exists "data:broken". split; [right; left; reflexivity | reflexivity].
Defined.

Lemma extract_copies_left_strip_witness :
  0 < 300 /\
  exists cv,
    snd (extractStripFromComposite (B := reference) "data:composite" 300) = Normal cv /\
    cv_width cv = 600%Z /\ cv_height cv = 1800%Z /\
    getPixel (bitmap cv) 599 1799 = Some (Some (599 + 4096 * 1799)%Z).
Proof.
  split; [reflexivity|].
  destruct (proj1 (extract_copies_left_strip (H := reference) "data:composite" 300 eq_refl)
              (gradient 1200 1800) eq_refl)
    as (cv & Hrun & Hw & Hh & _ & Hpx).
  exists cv. split; [now rewrite Hrun | split; [exact Hw | split; [exact Hh|]]].
  refine (Hpx 599%Z 1799%Z _ _); (vm_compute; split; [discriminate | reflexivity]).
Defined.

(** * Further properties of the compositing functions *)

(** ** The strip compositor called directly *)

(** X1.  [createStripGridComposite], called directly, is rejected with an
    [Error] exactly when it is not given four photos (a missing list
    included); the message is fixed and does not name the actual count,
    and nothing was asked of the browser.  With four photos of which one
    does not decode, it is rejected with the load error after the four
    loads were started, and, having no [catch] of its own, logs nothing to
    the console. *)
Theorem createStripGridComposite_refuses_exactly `{Browser} :
  forall (photos : option (list string)) (dpi : Q),
    let run := createStripGridComposite photos dpi in
    ((exists msg, snd run = Throw (Error msg)) <-> photos_length photos <> 4%Z) /\
    (photos_length photos <> 4%Z ->
     run = ([], Throw (Error "Strip grid requires exactly 4 photos"))) /\
    (photos_length photos = 4%Z ->
     (exists src, In src (photos_list photos) /\ decode src = None) ->
     run = (map LoadImage (photos_list photos), Throw ErrorEvent)).
Proof.
  intros photos dpi run. subst run.
  assert (Hbad : photos_length photos <> 4%Z ->
                 createStripGridComposite photos dpi
                 = ([], Throw (Error "Strip grid requires exactly 4 photos"))).
  { intro Hn. unfold createStripGridComposite. destruct photos as [l|]; [|reflexivity].
    simpl in Hn. apply Z.eqb_neq in Hn. now rewrite Hn. }
  split; [split|split].
  - intros [msg Hmsg].
    destruct (Z.eq_dec (photos_length photos) 4) as [E | E]; [|exact E].
    exfalso. destruct photos as [l|]; [|discriminate E]. simpl in E.
    destruct (decodeAll l) as [images|] eqn:Hdec.
    + rewrite (createStripGridComposite_run l images dpi E Hdec) in Hmsg. discriminate Hmsg.
    + rewrite (createStripGridComposite_fails l dpi E Hdec) in Hmsg. discriminate Hmsg.
  - intro Hn. rewrite (Hbad Hn). eexists. reflexivity.
  - exact Hbad.
  - intros E Hfail. destruct photos as [l|]; [|discriminate E]. simpl in E |- *.
    apply createStripGridComposite_fails; [exact E | now apply decodeAll_None].
Qed.

Lemma createStripGridComposite_refuses_exactly_witness :
  decode (Browser := reference) "data:broken" = None /\
  createStripGridComposite (B := reference) (Some broken_photos) 300
  = (map LoadImage broken_photos, Throw ErrorEvent).
Proof.
  split; [reflexivity|].
  refine (proj2 (proj2 (createStripGridComposite_refuses_exactly
                          (H := reference) (Some broken_photos) 300)) eq_refl _).
  exists "data:broken". split; [right; left; reflexivity | reflexivity].
Defined.

(** ** The four cells of the strip *)

Lemma round_comp (x y : Q) : x == y -> Math.round x = Math.round y.
Proof. intro E. unfold Math.round. apply Qfloor_comp. now rewrite E. Qed.

Lemma round_whole (z : Z) : Math.round (inject_Z z) = z.
Proof.
  unfold Math.round.
  change (Qfloor (inject_Z z + (1 # 2))) with ((z * 2 + 1) / 2)%Z.
  symmetry. apply Z.div_unique with (r := 1%Z); lia.
Qed.

Lemma round_times_whole (a n : Z) : Math.round (inject_Z a * inject_Z n) = (a * n)%Z.
Proof. rewrite <- inject_Z_mult. apply round_whole. Qed.

(** A cell of the strip is one and a half inches: [round (1.5 * n)]
    pixels at [n] dots per inch. *)
Lemma round_cell_height (n : Z) : Math.round (6 / 4 * inject_Z n) = ((3 * n + 1) / 2)%Z.
Proof.
  unfold Math.round.
  rewrite (Qfloor_comp _ ((3 * n + 1) # 2)); [reflexivity|].
  rewrite (Qmake_Qdiv (3 * n + 1) 2), inject_Z_plus, inject_Z_mult. field.
Qed.

(** X2.  At an even whole resolution (300 dpi is one) the four cells tile
    the strip exactly, [4 * cellHeightPx = stripHeightPx], and each of the
    four photos is drawn entirely inside the strip canvas. *)
Theorem strip_photos_inside_at_even_dpi `{Browser} :
  forall (k : Z) (images : list Image) (i : nat) (img : Image),
    (0 < k)%Z ->
    (i < 4)%nat ->
    nth_error images i = Some img ->
    positive_size img ->
    let dpi := inject_Z (2 * k) in
    let strip := stripCanvasOf images dpi in
    (4 * Math.round (6 / 4 * dpi) = Math.round (6 * dpi))%Z /\
    exists p,
      nth_error (cv_ops strip) (S i) = Some (drawPlaced img p) /\
      0 <= drawX p /\ drawX p + drawWidth p <= inject_Z (cv_width strip) /\
      0 <= drawY p /\ drawY p + drawHeight p <= inject_Z (cv_height strip).
Proof.
  intros k images i img Hk Hi Hnth [Hw Hh] dpi strip.
  assert (Ecell : Math.round (6 / 4 * dpi) = (3 * k)%Z).
  { subst dpi. rewrite round_cell_height.
    replace (3 * (2 * k) + 1)%Z with (1 + 3 * k * 2)%Z by lia.
    rewrite Z.div_add by lia. reflexivity. }
  assert (Estrip : Math.round (6 * dpi) = (12 * k)%Z).
  { subst dpi. change 6 with (inject_Z 6). rewrite round_times_whole. lia. }
  assert (Ewidth : Math.round (2 * dpi) = (4 * k)%Z).
  { subst dpi. change 2 with (inject_Z 2) at 1. rewrite round_times_whole. lia. }
  split; [rewrite Ecell, Estrip; lia|].
  exists (stripPlacement (Math.round (2 * dpi)) (Math.round (6 / 4 * dpi)) img (Z.of_nat i)).
  split.
  - unfold strip, stripCanvasOf. cbn [cv_ops nth_error].
    rewrite (nth_error_imap _ _ _ _ _ Hnth). now rewrite Z.add_0_l.
  - unfold strip, stripCanvasOf. cbn [cv_width cv_height].
    destruct (stripPlacement_fit (Math.round (2 * dpi)) (Math.round (6 / 4 * dpi))
                img (Z.of_nat i) Hw Hh) as [(Hx1 & Hx2 & Hy1 & Hy2) _];
      [rewrite Ewidth; lia | rewrite Ecell; lia |].
    rewrite Ecell, Ewidth, Estrip in *.
    assert (Hlow : 0 <= inject_Z (Z.of_nat i * (3 * k)))
      by (rewrite <- (Zle_Qle 0); nia).
    assert (Hhigh : inject_Z (Z.of_nat i * (3 * k)) + inject_Z (3 * k) <= inject_Z (12 * k))
      by (rewrite <- inject_Z_plus, <- Zle_Qle; nia).
    repeat split; lra.
Qed.

Lemma strip_photos_inside_at_even_dpi_witness :
  (4 * Math.round (6 / 4 * 300) = Math.round (6 * 300))%Z.
Proof.
  exact (proj1 (strip_photos_inside_at_even_dpi (H := reference) 150 four_images 3
                  (gradient 3000 500) eq_refl (le_n 4) eq_refl
                  (conj eq_refl eq_refl))).
Defined.

(** X3.  At an odd whole resolution the cell height rounds up and the
    four cells are two pixels taller than the strip.  A fourth photo that
    is fitted to the cell height (its aspect ratio is at most the cell's)
    is then drawn down to [stripHeightPx + 2]: its last two pixel rows
    fall outside the strip canvas. *)
Theorem strip_fourth_cell_overhangs_at_odd_dpi `{Browser} :
  forall (k : Z) (img : Image),
    (0 <= k)%Z ->
    positive_size img ->
    let dpi := inject_Z (2 * k + 1) in
    let stripWidthPx := Math.round (2 * dpi) in
    let stripHeightPx := Math.round (6 * dpi) in
    let cellHeightPx := Math.round (6 / 4 * dpi) in
    aspectOf img <= inject_Z stripWidthPx / inject_Z cellHeightPx ->
    (4 * cellHeightPx = stripHeightPx + 2)%Z /\
    drawY (stripPlacement stripWidthPx cellHeightPx img 3)
    + drawHeight (stripPlacement stripWidthPx cellHeightPx img 3)
    == inject_Z stripHeightPx + 2.
Proof.
  intros k img Hk [Hw Hh] dpi sw sh ch Htall.
  assert (Ecell : ch = (3 * k + 2)%Z).
  { subst ch dpi. rewrite round_cell_height.
    replace (3 * (2 * k + 1) + 1)%Z with ((3 * k + 2) * 2)%Z by lia.
    now rewrite Z.div_mul by lia. }
  assert (Estrip : sh = (12 * k + 6)%Z).
  { subst sh dpi. change 6 with (inject_Z 6). rewrite round_times_whole. lia. }
  split; [lia|].
  unfold stripPlacement. apply Qltb_ge in Htall. unfold Qgtb. rewrite Htall.
  cbn [drawY drawHeight]. rewrite Ecell, Estrip.
  rewrite <- inject_Z_plus. change 2 with (inject_Z 2). rewrite <- inject_Z_plus.
  apply inject_Z_injective. lia.
Qed.

Lemma strip_fourth_cell_overhangs_at_odd_dpi_witness :
  aspectOf (B := reference) (gradient 600 800)
  <= inject_Z (Math.round (2 * 301)) / inject_Z (Math.round (6 / 4 * 301)) /\
  drawY (stripPlacement (B := reference) 602 452 (gradient 600 800) 3)
  + drawHeight (stripPlacement (B := reference) 602 452 (gradient 600 800) 3)
  == 1806 + 2.
Proof.
  split; [vm_compute; discriminate|].
  refine (proj2 (strip_fourth_cell_overhangs_at_odd_dpi (H := reference) 150
                   (gradient 600 800) _ (conj eq_refl eq_refl) _));
    [lia | vm_compute; discriminate].
Defined.

(** ** The cells of the grid canvas *)

Lemma layoutOf_canvas `{Browser} (cols rows : Z) (dpi marginPercent maxCellWidth : Q)
  (images : list Image) :
  let lay := layoutOf cols rows dpi marginPercent maxCellWidth images in
  canvasWidth lay = (marginSize lay + (cellWidthPx lay + marginSize lay) * cols)%Z /\
  canvasHeight lay = (marginSize lay + (cellHeightPx lay + marginSize lay) * rows)%Z /\
  marginSize lay
  = Math.round (Math.min (inject_Z (cellWidthPx lay)) (inject_Z (cellHeightPx lay))
                * (marginPercent / 100)).
Proof.
  unfold layoutOf. destruct (cellSizeInches rows maxCellWidth images).
  repeat split.
Qed.

Lemma round_nonneg (x : Q) : 0 <= x -> (0 <= Math.round x)%Z.
Proof.
  intro Hx. unfold Math.round. change 0%Z with (Qfloor 0).
  apply Qfloor_resp_le. lra.
Qed.

(** X4.  With a margin percentage that is not negative and cells of at
    least one pixel, the margin is not negative; every cell of the grid
    lies inside the canvas, at least one margin away from each edge; two
    different cells are at least one margin apart, so they never overlap;
    and every photo of positive size is drawn inside the canvas. *)
Theorem grid_cells_apart_and_inside `{Browser} :
  forall (cols rows : Z) (dpi marginPercent maxCellWidth : Q)
         (images : list Image) (i j : Z),
    (0 < cols)%Z -> (0 < rows)%Z ->
    0 <= marginPercent ->
    let lay := layoutOf cols rows dpi marginPercent maxCellWidth images in
    (0 < cellWidthPx lay)%Z -> (0 < cellHeightPx lay)%Z ->
    (0 <= i < cols * rows)%Z -> (0 <= j < cols * rows)%Z -> i <> j ->
    let m := marginSize lay in
    let cw := cellWidthPx lay in
    let ch := cellHeightPx lay in
    let xi := cellX lay (i / rows) in
    let yi := cellY lay (i mod rows) in
    let xj := cellX lay (j / rows) in
    let yj := cellY lay (j mod rows) in
    (0 <= m)%Z /\
    (m <= xi /\ xi + cw + m <= canvasWidth lay /\
     m <= yi /\ yi + ch + m <= canvasHeight lay)%Z /\
    (xi + cw + m <= xj \/ xj + cw + m <= xi \/
     yi + ch + m <= yj \/ yj + ch + m <= yi)%Z /\
    (forall img : Image,
       positive_size img ->
       let p := gridPlacement rows lay img i in
       0 <= drawX p /\ drawX p + drawWidth p <= inject_Z (canvasWidth lay) /\
       0 <= drawY p /\ drawY p + drawHeight p <= inject_Z (canvasHeight lay)).
Proof.
  intros cols rows dpi marginPercent maxCellWidth images i j
         Hc Hr Hmp lay Hcw Hch Hi Hj Hij m cw ch xi yi xj yj.
  destruct (layoutOf_canvas cols rows dpi marginPercent maxCellWidth images)
    as (EW & EH & EM).
  fold lay in EW, EH, EM. fold m cw ch in EW, EH, EM.
  assert (Hm : (0 <= m)%Z).
  { rewrite EM. apply round_nonneg. apply Qmult_le_0_compat.
    - apply Q.min_glb; apply Qlt_le_weak, inject_Z_pos; assumption.
    - apply Qle_shift_div_l; [reflexivity | lra]. }
  assert (Hci : (0 <= i / rows < cols)%Z).
  { split; [apply Z.div_pos; lia | apply Z.div_lt_upper_bound; lia]. }
  assert (Hcj : (0 <= j / rows < cols)%Z).
  { split; [apply Z.div_pos; lia | apply Z.div_lt_upper_bound; lia]. }
  assert (Hri : (0 <= i mod rows < rows)%Z) by (apply Z.mod_pos_bound; lia).
  assert (Hrj : (0 <= j mod rows < rows)%Z) by (apply Z.mod_pos_bound; lia).
  assert (Hbox : (m <= xi /\ xi + cw + m <= canvasWidth lay /\
                  m <= yi /\ yi + ch + m <= canvasHeight lay)%Z).
  { subst xi yi. unfold cellX, cellY. fold m cw ch. rewrite EW, EH.
    repeat split; nia. }
  split; [exact Hm | split; [exact Hbox | split]].
  - subst xi yi xj yj. unfold cellX, cellY. fold m cw ch.
    destruct (Z.lt_trichotomy (i / rows) (j / rows)) as [L | [E | L]].
    + left. nia.
    + destruct (Z.lt_trichotomy (i mod rows) (j mod rows)) as [L | [E' | L]].
      * right. right. left. nia.
      * exfalso. apply Hij.
        rewrite (Z.div_mod i rows), (Z.div_mod j rows) by lia.
        now rewrite E, E'.
      * right. right. right. nia.
    + right. left. nia.
  - intros img [Hw Hh] p. subst p.
    rewrite gridPlacement_placeInCell, Z.rem_mod_nonneg by lia.
    destruct (placeInCell_fit (aspectOf img)
                (inject_Z (cellX lay (i / rows))) (inject_Z (cellY lay (i mod rows)))
                (cellWidthPx lay) (cellHeightPx lay)
                (aspectOf_pos img Hw Hh) Hcw Hch) as [(Hx1 & Hx2 & Hy1 & Hy2) _].
    fold xi yi cw ch in Hx1, Hx2, Hy1, Hy2 |- *.
    destruct Hbox as (B1 & B2 & B3 & B4).
    assert (Q1 : 0 <= inject_Z xi) by (rewrite <- (Zle_Qle 0); lia).
    assert (Q2 : inject_Z xi + inject_Z cw <= inject_Z (canvasWidth lay))
      by (rewrite <- inject_Z_plus, <- Zle_Qle; lia).
    assert (Q3 : 0 <= inject_Z yi) by (rewrite <- (Zle_Qle 0); lia).
    assert (Q4 : inject_Z yi + inject_Z ch <= inject_Z (canvasHeight lay))
      by (rewrite <- inject_Z_plus, <- Zle_Qle; lia).
    repeat split; lra.
Qed.

Lemma grid_cells_apart_and_inside_witness :
  let lay := layoutOf (B := reference) 2 2 300 2 1.95 four_images in
  (cellX lay (1 / 2) + cellWidthPx lay + marginSize lay <= cellX lay (2 / 2) \/
   cellX lay (2 / 2) + cellWidthPx lay + marginSize lay <= cellX lay (1 / 2) \/
   cellY lay (1 mod 2) + cellHeightPx lay + marginSize lay <= cellY lay (2 mod 2) \/
   cellY lay (2 mod 2) + cellHeightPx lay + marginSize lay <= cellY lay (1 mod 2))%Z.
Proof.
  refine (proj1 (proj2 (proj2
            (grid_cells_apart_and_inside (H := reference) 2 2 300 2 1.95 four_images 1 2
               eq_refl eq_refl _ eq_refl eq_refl _ _ _))));
    [discriminate | lia | lia | discriminate].
Defined.

(** ** The page size of a grid that is not in the catalog *)












(** * Properties of the screens *)

(** ** The number of photos asked for and the compositor *)

Lemma usable_counts_object (grid : GridArg) :
  count_falsy (grid_cols grid) = false ->
  exists g, grid = GridObj g.
Proof.
  destruct grid as [| |s|g]; try discriminate. intros _. now exists g.
Qed.

Lemma getGridCellCount_expected (grid : GridArg) :
  count_falsy (grid_cols grid) = false ->
  count_falsy (grid_rows grid) = false ->
  getGridCellCount grid = expected_count grid.
Proof.
  intros Hc Hr. destruct (usable_counts_object grid Hc) as [g ->].
  simpl in Hc, Hr. unfold getGridCellCount, expected_count, routes_to_strip.
  cbn [grid_falsy grid_cols grid_rows]. rewrite Hc, Hr.
  now destruct (is_strip_id (id g) || isStripGrid g)%bool.
Qed.

(** X6.  When the grid carries usable column and row counts (present and
    not zero), the number of photos [getGridCellCount] makes the capture
    screen collect is the number [createGridComposite] expects: a
    non-empty list of that many photos is never refused, so the compositor
    can then only fail on an image that does not decode. *)
Theorem captured_count_is_accepted `{Browser} :
  forall (photos : list string) (grid : GridArg)
         (dpi marginPercent : Q) (maxCellWidth : option Q),
    count_falsy (grid_cols grid) = false ->
    count_falsy (grid_rows grid) = false ->
    Z.of_nat (List.length photos) = getGridCellCount grid ->
    photos <> [] ->
    getGridCellCount grid = expected_count grid /\
    ~ invalid_input (Some photos) grid /\
    (forall msg,
       snd (createGridComposite (Some photos) grid dpi marginPercent maxCellWidth)
       <> Throw (Error msg)) /\
    (decodeAll photos <> None ->
     exists cv,
       snd (createGridComposite (Some photos) grid dpi marginPercent maxCellWidth)
       = Normal cv).
Proof.
  intros photos grid dpi marginPercent maxCellWidth Hc Hr Hlen Hne.
  pose proof (getGridCellCount_expected grid Hc Hr) as Hexp.
  assert (Hv : ~ invalid_input (Some photos) grid).
  { intros [F | [F | [F | F]]].
    - simpl in F. apply Z.eqb_eq in F. destruct photos; [now apply Hne | discriminate F].
    - congruence.
    - congruence.
    - apply F. simpl. congruence. }
  split; [exact Hexp | split; [exact Hv | split]].
  - intro msg. rewrite (createGridComposite_checked _ _ _ _ _ Hv).
    apply composeChecked_no_Error.
  - intro Hdec. rewrite (createGridComposite_checked _ _ _ _ _ Hv).
    unfold composeChecked. cbn [photos_list].
    destruct (decodeAll photos) as [images|]; [|now elim Hdec].
    destruct (routes_to_strip grid); eexists; reflexivity.
Qed.

Lemma captured_count_is_accepted_witness :
  Z.of_nat (List.length four_photos) = getGridCellCount grid_4cut /\
  exists cv,
    snd (createGridComposite (B := reference) (Some four_photos) grid_4cut 300 3 None)
    = Normal cv.
Proof.
  split; [reflexivity|].
  refine (proj2 (proj2 (proj2
            (captured_count_is_accepted (H := reference) four_photos grid_4cut 300 3 None
               eq_refl eq_refl eq_refl _))) _); discriminate.
Defined.

Lemma cellCountOfId_values (gridId : option string) :
  In (cellCountOfId gridId) [1; 2; 4; 6]%Z.
Proof.
  unfold cellCountOfId.
  repeat match goal with
         | |- context [is_id ?a ?b] => destruct (is_id a b)
         end; simpl; tauto.
Qed.

(** X7.  When the grid lacks a usable column or row count (a legacy
    identifier string, a missing grid, an object without [cols] or [rows],
    or with a zero), the capture screen still asks for 1, 2, 4 or 6 photos,
    but [createGridComposite] refuses every photo list for that grid, before
    any work: with "No photos provided" for a missing or empty list, with
    "Invalid grid configuration" otherwise. *)
Theorem unusable_grid_is_always_refused `{Browser} :
  forall (photos : option (list string)) (grid : GridArg)
         (dpi marginPercent : Q) (maxCellWidth : option Q),
    count_falsy (grid_cols grid) = true \/ count_falsy (grid_rows grid) = true ->
    In (getGridCellCount grid) [1; 2; 4; 6]%Z /\
    createGridComposite photos grid dpi marginPercent maxCellWidth
    = ([], Throw (Error (if photos_empty photos then "No photos provided"
                         else "Invalid grid configuration"))).
Proof.
  intros photos grid dpi marginPercent maxCellWidth Hbad. split.
  - unfold getGridCellCount.
    destruct (grid_falsy grid); [simpl; tauto|].
    destruct grid as [| |s|g]; try (simpl; tauto).
    + destruct (string_dec s "strip-grid"); [simpl; tauto | apply cellCountOfId_values].
    + destruct (is_strip_id (id g) || isStripGrid g)%bool; [simpl; tauto|].
      simpl in Hbad.
      destruct (count_falsy (cols g)), (count_falsy (rows g));
        try apply cellCountOfId_values.
      destruct Hbad; discriminate.
  - rewrite createGridComposite_refused by (right; tauto).
    unfold refusal_message.
    destruct (photos_empty photos); [reflexivity|].
    destruct Hbad as [E | E]; rewrite E; [reflexivity | now rewrite orb_true_r].
Qed.

Lemma unusable_grid_is_always_refused_witness :
  getGridCellCount (GridId "4x6-4cut") = 4%Z /\
  createGridComposite (B := reference) (Some four_photos) (GridId "4x6-4cut") 300 3 None
  = ([], Throw (Error "Invalid grid configuration")).
Proof.
  split; [reflexivity|].
  exact (proj2 (unusable_grid_is_always_refused (H := reference) (Some four_photos)
                  (GridId "4x6-4cut") 300 3 None (or_introl eq_refl))).
Defined.

(** ** The layouts on offer *)

(** X8.  Every layout of the selection screen, once stored by
    [handleContinue], resolves to the page size it declares
    ([printWidth] by [printHeight], labelled "4x6"), does not route to the
    strip compositor, and makes the capture screen collect
    [cols * rows] photos (at least one), the same number as the legacy
    identifier string of the layout. *)
Theorem offered_layouts_are_consistent :
  forall (selected : string) (g : GridOption),
    findGrid selected = Some g ->
    let grid := handleContinue selected in
    opt_id g = selected /\
    grid = GridObj (mkGrid (Some selected) (Some (opt_cols g)) (Some (opt_rows g)) false) /\
    getPageSizeFromGrid grid = Normal (mkPage (printWidth g) (printHeight g) "4x6") /\
    routes_to_strip grid = false /\
    getGridCellCount grid = (opt_cols g * opt_rows g)%Z /\
    getGridCellCount (GridId selected) = (opt_cols g * opt_rows g)%Z /\
    (0 < opt_cols g)%Z /\ (0 < opt_rows g)%Z.
Proof.
  intros selected g Hfind grid. subst grid. unfold handleContinue. rewrite Hfind.
  unfold findGrid, grids, find in Hfind. cbn [opt_id] in Hfind.
  repeat match type of Hfind with
         | context [string_dec ?a ?b] => destruct (string_dec a b) as [<- | _]
         end;
    inversion Hfind; subst g; cbn [opt_id opt_cols opt_rows printWidth printHeight];
    repeat split.
Qed.

Lemma offered_layouts_are_consistent_witness :
  findGrid "4x6-6cut" = Some (mkOption "4x6-6cut" "6 CUT" "6 grid cells" 2 3 4 6) /\
  getGridCellCount (handleContinue "4x6-6cut") = 6%Z.
Proof.
  split; [reflexivity|].
  exact (proj1 (proj2 (proj2 (proj2 (proj2
           (offered_layouts_are_consistent "4x6-6cut"
              (mkOption "4x6-6cut" "6 CUT" "6 grid cells" 2 3 4 6) eq_refl)))))).
Defined.

(** ** Collecting the photos *)

(** The captured photos never outnumber the cells, and the index of the
    next photo is their number. *)
Definition capture_ok (totalCells : Z) (st : CaptureState) : Prop :=
  (Z.of_nat (List.length (capturedPhotos st)) <= totalCells)%Z /\
  currentPhotoIndex st = Z.of_nat (List.length (capturedPhotos st)).

Lemma filterIndex_removes {A} (l : list A) :
  forall (k index : Z),
    filterIndex l k index
    = if ((k <=? index) && (index <? k + Z.of_nat (List.length l)))%Z%bool
      then firstn (Z.to_nat (index - k)) l ++ skipn (S (Z.to_nat (index - k))) l
      else l.
Proof.
  induction l as [|a l IH]; intros k index.
  - cbn [filterIndex]. rewrite firstn_nil, skipn_nil.
    now destruct ((k <=? index) && (index <? k + Z.of_nat (@List.length A [])))%Z%bool.
  - cbn [filterIndex]. rewrite IH.
    replace (Z.of_nat (List.length (a :: l))) with (1 + Z.of_nat (List.length l))%Z
      by (cbn [List.length]; lia).
    destruct (Z.eqb_spec k index) as [-> | Hne].
    + replace ((index + 1 <=? index)%Z) with false by (symmetry; apply Z.leb_gt; lia).
      replace ((index <=? index)%Z) with true by (symmetry; apply Z.leb_le; lia).
      replace ((index <? index + (1 + Z.of_nat (List.length l)))%Z) with true
        by (symmetry; apply Z.ltb_lt; lia).
      rewrite Z.sub_diag. reflexivity.
    + destruct (Z.leb_spec (k + 1) index) as [Hle | Hgt].
      * replace ((k <=? index)%Z) with true by (symmetry; apply Z.leb_le; lia).
        replace ((index <? k + (1 + Z.of_nat (List.length l)))%Z)
          with ((index <? k + 1 + Z.of_nat (List.length l))%Z) by (f_equal; lia).
        destruct (index <? k + 1 + Z.of_nat (List.length l))%Z; [|reflexivity].
        cbn [andb].
        replace (Z.to_nat (index - k)) with (S (Z.to_nat (index - (k + 1)))) by lia.
        reflexivity.
      * replace ((k <=? index)%Z) with false by (symmetry; apply Z.leb_gt; lia).
        reflexivity.
Qed.

Lemma filterIndex_length {A} (l : list A) (k index : Z) :
  (List.length (filterIndex l k index) <= List.length l)%nat.
Proof.
  revert k. induction l as [|a l IH]; intro k; simpl; [lia|].
  specialize (IH (k + 1)%Z). destruct (k =? index)%Z; simpl; lia.
Qed.

Lemma captureStep_keeps (totalCells : Z) (st : CaptureState) (a : CaptureAction) :
  capture_ok totalCells st ->
  capture_ok totalCells (fst (captureStep totalCells st a)) /\
  (forall photos,
     In (SaveCapturedPhotos photos) (snd (captureStep totalCells st a)) ->
     Z.of_nat (List.length photos) = totalCells /\
     photos = capturedPhotos (fst (captureStep totalCells st a))).
Proof.
  intros [Hlen Hidx]. destruct a as [[photoData|] | index |]; cbn [captureStep].
  - unfold isComplete.
    destruct (Z.eqb_spec (Z.of_nat (List.length (capturedPhotos st))) totalCells) as [E | N].
    + cbn [fst snd]. split; [now split | intros photos []].
    + unfold handleCapture, capture_ok. cbn [fst snd capturedPhotos currentPhotoIndex].
      split; [split; [|reflexivity] |].
      * rewrite length_app. cbn [List.length]. lia.
      * intros photos [F | Hin]; [discriminate F|].
        destruct (Z.eqb_spec (Z.of_nat (List.length (capturedPhotos st ++ [photoData])))
                    totalCells) as [E | _]; [|destruct Hin].
        destruct Hin as [F | [F | []]]; [|discriminate F].
        inversion F. subst photos. now split.
  - unfold isComplete. destruct (_ =? _)%Z; cbn [fst snd handleCapture].
    + split; [now split | intros photos []].
    + split; [now split | intros photos [F | []]; discriminate F].
  - cbn [fst snd]. split; [|intros photos []].
    unfold handleDeletePhoto, capture_ok. cbn [capturedPhotos currentPhotoIndex].
    split; [|reflexivity].
    pose proof (filterIndex_length (capturedPhotos st) 0 index). lia.
  - unfold handleRemoveLast.
    destruct (0 <? Z.of_nat (List.length (capturedPhotos st)))%Z eqn:E; cbn [fst snd].
    + split; [|intros photos []].
      unfold capture_ok. cbn [capturedPhotos currentPhotoIndex]. split; [|reflexivity].
      destruct (capturedPhotos st) as [|p l] eqn:El; [discriminate E|].
      rewrite <- El in *.
      assert (Hrl : List.length (removelast (capturedPhotos st))
                    = pred (List.length (capturedPhotos st))).
      { rewrite El. clear. revert p. induction l as [|q l IH]; intro p; [reflexivity|].
        change (removelast (p :: q :: l)) with (p :: removelast (q :: l)).
        cbn [List.length]. rewrite IH. reflexivity. }
      rewrite Hrl. lia.
    + split; [now split | intros photos [F | []]; discriminate F].
Qed.

(** X9.  Whatever the user does on the capture screen (capture, with or
    without a frame, delete a thumbnail, remove the last photo), starting
    with no photo and a cell count that is not negative: the photos never
    outnumber the cells, [currentPhotoIndex] is their number, and every
    list handed to the session has exactly as many photos as there are
    cells. *)
Theorem capture_never_exceeds_cells :
  forall (totalCells : Z) (actions : list CaptureAction),
    (0 <= totalCells)%Z ->
    let run := captureRun totalCells initialCapture actions in
    capture_ok totalCells (fst run) /\
    (forall photos,
       In (SaveCapturedPhotos photos) (snd run) ->
       Z.of_nat (List.length photos) = totalCells).
Proof.
  intros totalCells actions Htotal.
  assert (Hgen : forall acts st,
             capture_ok totalCells st ->
             capture_ok totalCells (fst (captureRun totalCells st acts)) /\
             (forall photos,
                In (SaveCapturedPhotos photos) (snd (captureRun totalCells st acts)) ->
                Z.of_nat (List.length photos) = totalCells)).
  { induction acts as [|a acts IH]; intros st Hok; cbn [captureRun].
    - cbn [fst snd]. split; [exact Hok | intros photos []].
    - destruct (captureStep_keeps totalCells st a Hok) as [Hok' Hout].
      destruct (captureStep totalCells st a) as [st' out]. cbn [fst snd] in *.
      destruct (IH st' Hok') as [Hok'' Hout'].
      destruct (captureRun totalCells st' acts) as [st'' out']. cbn [fst snd] in *.
      split; [exact Hok''|].
      intros photos Hin. apply in_app_or in Hin.
      destruct Hin as [Hin | Hin]; [apply (Hout photos Hin) | apply (Hout' photos Hin)]. }
  apply Hgen. split; [exact Htotal | reflexivity].
Qed.

Lemma capture_never_exceeds_cells_witness :
  capture_ok 2 (fst (captureRun 2 initialCapture
                       [ClickCapture (Some "a"); ClickCapture (Some "b");
                        ClickCapture (Some "c"); ClickDelete 0])).
Proof.
  refine (proj1 (capture_never_exceeds_cells 2
                   [ClickCapture (Some "a"); ClickCapture (Some "b");
                    ClickCapture (Some "c"); ClickDelete 0] _)).
  discriminate.
Defined.




(** X11.  Deleting the thumbnail at an index inside the list removes
    that photo and no other, keeps the order of the rest, and makes the
    index of the next photo their number; a complete set becomes
    incomplete, so the capture button works again.  An index outside the
    list removes nothing. *)
Theorem deleting_a_photo_removes_it :
  forall (totalCells index : Z) (st : CaptureState),
    let st' := handleDeletePhoto index st in
    ((0 <= index < Z.of_nat (List.length (capturedPhotos st)))%Z ->
     capturedPhotos st'
     = firstn (Z.to_nat index) (capturedPhotos st)
       ++ skipn (S (Z.to_nat index)) (capturedPhotos st) /\
     Z.of_nat (List.length (capturedPhotos st'))
     = (Z.of_nat (List.length (capturedPhotos st)) - 1)%Z /\
     (isComplete totalCells st = true -> isComplete totalCells st' = false)) /\
    (~ (0 <= index < Z.of_nat (List.length (capturedPhotos st)))%Z ->
     capturedPhotos st' = capturedPhotos st) /\
    currentPhotoIndex st' = Z.of_nat (List.length (capturedPhotos st')) /\
    hoveredPhotoIndex st' = None.
Proof.
  intros totalCells index st st'. subst st'. unfold handleDeletePhoto.
  cbn [capturedPhotos currentPhotoIndex hoveredPhotoIndex].
  rewrite filterIndex_removes. rewrite Z.sub_0_r, Z.add_0_l.
  split; [|split; [|split; reflexivity]].
  - intros [Hlo Hhi].
    replace ((0 <=? index)%Z) with true by (symmetry; apply Z.leb_le; lia).
    replace ((index <? Z.of_nat (List.length (capturedPhotos st)))%Z) with true
      by (symmetry; apply Z.ltb_lt; lia).
    cbn [andb].
    assert (Hlen : Z.of_nat (List.length (firstn (Z.to_nat index) (capturedPhotos st)
                                          ++ skipn (S (Z.to_nat index)) (capturedPhotos st)))
                   = (Z.of_nat (List.length (capturedPhotos st)) - 1)%Z).
    { rewrite length_app, length_firstn, length_skipn. lia. }
    split; [reflexivity | split; [exact Hlen|]].
    unfold isComplete. cbn [capturedPhotos]. rewrite Hlen.
    intro E. apply Z.eqb_eq in E. apply Z.eqb_neq. lia.
  - intro Hout.
    destruct (Z.leb_spec 0 index), (Z.ltb_spec index (Z.of_nat (List.length (capturedPhotos st))));
      cbn [andb]; try reflexivity.
    exfalso. apply Hout. lia.
Qed.

Lemma deleting_a_photo_removes_it_witness :
  capturedPhotos (handleDeletePhoto 1 (mkCapture ["a"; "b"; "c"] 3 None)) = ["a"; "c"].
Proof.
  refine (proj1 (proj1 (deleting_a_photo_removes_it 3 1 (mkCapture ["a"; "b"; "c"] 3 None)) _)).
  cbn. lia.
Defined.

(** ** From the edited photos to the composite *)

(** The grid [handleNext] works with. *)
Definition effectiveGrid (sessionGrid : GridArg) : GridArg :=
  if grid_falsy sessionGrid
  then GridObj (mkGrid (Some "4x6-single") (Some 1%Z) (Some 1%Z) false)
  else sessionGrid.

(** Whether [handleNext] calls the compositor: four photos for a strip
    grid, or more than one photo for a grid of as many cells. *)
Definition composite_attempted (finalPhotos : list string) (grid : GridArg) : bool :=
  let len := Z.of_nat (List.length finalPhotos) in
  if routes_to_strip grid then (len =? 4)%Z
  else match cellProduct grid with
       | Some n => ((1 <? len) && (1 <? n) && (len =? n))%Z%bool
       | None => false
       end.

Lemma engineLog_engine `{Browser} (log : list Event) :
  engineLog (map Engine log) = log.
Proof. induction log as [|e log IH]; simpl; [reflexivity | now rewrite IH]. Qed.

Lemma image_truthy_or_first `{Browser} (finalPhotos : list string) :
  (if image_truthy (firstPhoto finalPhotos) then firstPhoto finalPhotos
   else firstPhoto finalPhotos) = firstPhoto finalPhotos.
Proof. now destruct (image_truthy (firstPhoto finalPhotos)). Qed.

(** [handleNext], branch by branch. *)
Lemma handleNext_cases `{Browser} (finalPhotos : list string) (sessionGrid : GridArg) :
  let grid := effectiveGrid sessionGrid in
  let run := createGridComposite (Some finalPhotos) grid 300 3 None in
  exists events,
    handleNext finalPhotos sessionGrid
    = events ++
      [UpdateSession
         (mkUpdate finalPhotos
            (if composite_attempted finalPhotos grid
             then match snd run with
                  | Normal cv => Some (Encoded cv)
                  | Throw _ => firstPhoto finalPhotos
                  end
             else firstPhoto finalPhotos)
            grid);
       Navigate "/frame-selection"] /\
    engineLog events = (if composite_attempted finalPhotos grid then fst run else []) /\
    sessionUpdateOf events = None /\
    (forall u, ~ In (UpdateSession u) events).
Proof.
  intros grid run. unfold handleNext. fold (effectiveGrid sessionGrid). fold grid.
  unfold composite_attempted, tryComposite. fold run.
  set (len := Z.of_nat (List.length finalPhotos)).
  assert (Hflat : forall (log : list Event) (ev : EditEvent),
             (forall u, ev <> UpdateSession u) ->
             sessionUpdateOf (map Engine log ++ [ev]) = None /\
             (forall u, ~ In (UpdateSession u) (map Engine log ++ [ev]))).
  { intros log ev Hev. split.
    - unfold sessionUpdateOf. rewrite flat_map_app.
      replace (flat_map _ (map Engine log)) with (@nil SessionUpdate)
        by (induction log; simpl; auto).
      destruct ev; try reflexivity. now elim (Hev update).
    - intros u Hin. apply in_app_or in Hin. destruct Hin as [Hin | [E | []]].
      + apply in_map_iff in Hin. destruct Hin as (e & F & _). discriminate F.
      + exact (Hev u E). }
  assert (Hlog : forall (log : list Event) (ev : EditEvent),
             (forall e, ev <> Engine e) ->
             engineLog (map Engine log ++ [ev]) = log).
  { intros log ev Hev. unfold engineLog. rewrite flat_map_app.
    fold (engineLog (map Engine log)). rewrite engineLog_engine.
    destruct ev; try (cbn; now rewrite app_nil_r). now elim (Hev ev). }
  destruct (routes_to_strip grid) eqn:Hs; cbn [andb].
  - destruct (len =? 4)%Z eqn:H4.
    + destruct run as [log [cv | e]]; cbn [fst snd].
      * eexists. split; [reflexivity|]. split; [apply Hlog; discriminate|].
        apply Hflat. discriminate.
      * rewrite image_truthy_or_first.
        eexists. split; [reflexivity|]. split; [apply Hlog; discriminate|].
        apply Hflat. discriminate.
    + rewrite !andb_false_r.
      exists []. split; [|split; [reflexivity | split; [reflexivity | intros u []]]].
      destruct (len =? 1)%Z; cbn [app]; [now rewrite image_truthy_or_first | reflexivity].
  - destruct (cellProduct grid) as [n|].
    + destruct ((1 <? len)%Z && ((1 <? n)%Z && (len =? n)%Z))%bool eqn:Hb.
      * replace ((1 <? len)%Z && (1 <? n)%Z && (len =? n)%Z)%bool with true
          by (now rewrite <- andb_assoc).
        destruct run as [log [cv | e]]; cbn [fst snd].
        -- eexists. split; [reflexivity|]. split; [apply Hlog; discriminate|].
           apply Hflat. discriminate.
        -- cbn [image_truthy].
           eexists. split; [reflexivity|]. split; [apply Hlog; discriminate|].
           apply Hflat. discriminate.
      * replace ((1 <? len)%Z && (1 <? n)%Z && (len =? n)%Z)%bool with false
          by (now rewrite <- andb_assoc).
        exists []. split; [|split; [reflexivity | split; [reflexivity | intros u []]]].
        destruct (len =? 1)%Z; cbn [app]; [now rewrite image_truthy_or_first | reflexivity].
    + rewrite andb_false_r.
      exists []. split; [|split; [reflexivity | split; [reflexivity | intros u []]]].
      destruct (len =? 1)%Z; cbn [app]; [now rewrite image_truthy_or_first | reflexivity].
Qed.

(** The composite [handleNext] stores in the session. *)
Definition compositeOf `{Browser} (events : list EditEvent) : option ImageRef :=
  match sessionUpdateOf events with
  | Some u => compositeImage u
  | None => None
  end.

Lemma sessionUpdateOf_last `{Browser} (events : list EditEvent) (u : SessionUpdate) :
  (forall u', ~ In (UpdateSession u') events) ->
  sessionUpdateOf (events ++ [UpdateSession u; Navigate "/frame-selection"]) = Some u /\
  engineLog (events ++ [UpdateSession u; Navigate "/frame-selection"]) = engineLog events.
Proof.
  intro Hno. unfold sessionUpdateOf, engineLog. rewrite !flat_map_app.
  cbn [flat_map app]. rewrite app_nil_r. split; [|reflexivity].
  replace (flat_map _ events) with (@nil SessionUpdate); [reflexivity|].
  symmetry. induction events as [|ev events IH]; [reflexivity|].
  cbn [flat_map]. rewrite IH by (intros u' Hin; apply (Hno u'); now right).
  destruct ev; try reflexivity. exfalso. apply (Hno update). now left.
Qed.

(** X12.  The last part of [handleNext] always sends one update to the
    session, holding the edited photos and the grid it worked with, and
    then leaves for the frame selection.  It calls the compositor only for
    four photos with a strip grid, or for more than one photo with a grid
    of as many cells.  The stored composite is the compositor's canvas when
    the compositor was called and resolved; in every other case (one
    photo, a count that does not match, a refused request, a photo that
    does not decode) it is the first photo as it is, so with at least one
    photo it is never missing. *)
Theorem handleNext_composite_or_first_photo `{Browser} :
  forall (finalPhotos : list string) (sessionGrid : GridArg),
    let grid := effectiveGrid sessionGrid in
    let run := createGridComposite (Some finalPhotos) grid 300 3 None in
    let events := handleNext finalPhotos sessionGrid in
    (exists u before,
       events = before ++ [UpdateSession u; Navigate "/frame-selection"] /\
       (forall u', ~ In (UpdateSession u') before) /\
       editedPhotos u = finalPhotos /\ selectedGrid u = grid) /\
    engineLog events = (if composite_attempted finalPhotos grid then fst run else []) /\
    compositeOf events
    = (if composite_attempted finalPhotos grid
       then match snd run with
            | Normal cv => Some (Encoded cv)
            | Throw _ => firstPhoto finalPhotos
            end
       else firstPhoto finalPhotos) /\
    (finalPhotos <> [] -> compositeOf events <> None).
Proof.
  intros finalPhotos sessionGrid grid run events.
  destruct (handleNext_cases finalPhotos sessionGrid) as (evs & E & Hlog & _ & Hno).
  fold grid run in E, Hlog. subst events. rewrite E.
  match type of E with
  | _ = _ ++ [UpdateSession ?u; _] =>
      destruct (sessionUpdateOf_last evs u Hno) as [Hu Hl]
  end.
  unfold compositeOf. rewrite Hu, Hl. cbn [compositeImage].
  split; [|split; [exact Hlog | split; [reflexivity|]]].
  - eexists. exists evs.
    split; [reflexivity | split; [exact Hno | split; reflexivity]].
  - intro Hne. destruct finalPhotos as [|p l]; [now elim Hne|].
    destruct (composite_attempted (p :: l) grid); [|discriminate].
    destruct (snd run); discriminate.
Qed.

Lemma composite_attempted_counts (finalPhotos : list string) (grid : GridArg) :
  composite_attempted finalPhotos grid = true ->
  finalPhotos <> [] /\
  Z.of_nat (List.length finalPhotos) = expected_count grid.
Proof.
  unfold composite_attempted, expected_count, cellProduct. intro Ha.
  destruct (routes_to_strip grid).
  - apply Z.eqb_eq in Ha. split; [|exact Ha]. intros ->. discriminate Ha.
  - destruct (grid_cols grid) as [c|]; [|discriminate Ha].
    destruct (grid_rows grid) as [r|]; [|discriminate Ha].
    apply andb_prop in Ha. destruct Ha as [Ha H3].
    apply andb_prop in Ha. destruct Ha as [H1 H2].
    apply Z.ltb_lt in H1, H2. apply Z.eqb_eq in H3. cbn [count].
    split; [|exact H3]. intros ->. cbn in H1. lia.
Qed.

(** A call of the compositor for a grid that does not route to the strip
    compositor carries a valid request. *)
Lemma attempted_grid_request_valid (finalPhotos : list string) (grid : GridArg) :
  composite_attempted finalPhotos grid = true ->
  routes_to_strip grid = false ->
  ~ invalid_input (Some finalPhotos) grid.
Proof.
  intros Ha Hs.
  destruct (composite_attempted_counts finalPhotos grid Ha) as [Hne Hcount].
  unfold composite_attempted, cellProduct in Ha. rewrite Hs in Ha.
  destruct (grid_cols grid) as [c|] eqn:Ec; [|discriminate Ha].
  destruct (grid_rows grid) as [r|] eqn:Er; [|discriminate Ha].
  apply andb_prop in Ha. destruct Ha as [Ha _].
  apply andb_prop in Ha. destruct Ha as [_ H2]. apply Z.ltb_lt in H2.
  intros [F | [F | [F | F]]].
  - cbn in F. apply Z.eqb_eq in F. destruct finalPhotos; [now apply Hne | discriminate F].
  - rewrite Ec in F. cbn in F. apply Z.eqb_eq in F. nia.
  - rewrite Er in F. cbn in F. apply Z.eqb_eq in F. nia.
  - now apply F.
Qed.

(** The stored form of a layout of the selection screen. *)
Lemma offered_layout_stored (selected : string) (g : GridOption) :
  findGrid selected = Some g ->
  handleContinue selected
  = GridObj (mkGrid (Some selected) (Some (opt_cols g)) (Some (opt_rows g)) false) /\
  (0 < opt_cols g)%Z /\ (0 < opt_rows g)%Z.
Proof.
  intro Hfind. unfold handleContinue. rewrite Hfind.
  unfold findGrid, grids, find in Hfind. cbn [opt_id] in Hfind.
  repeat match type of Hfind with
         | context [string_dec ?a ?b] => destruct (string_dec a b) as [<- | _]
         end;
    inversion Hfind; subst g; cbn [opt_id opt_cols opt_rows]; repeat split.
Qed.

(** X13.  When [handleNext] calls the compositor for a grid that does
    not route to the strip compositor, the request is never refused: the
    stored composite is the grid canvas if every photo decodes, and
    otherwise the first photo, after the loads were started and the
    failure logged.  For a strip grid the request is refused exactly when
    the grid lacks a usable column or row count; the first photo is then
    stored without anything having been asked of the browser. *)
Theorem handleNext_request_is_valid `{Browser} :
  forall (finalPhotos : list string) (sessionGrid : GridArg),
    let grid := effectiveGrid sessionGrid in
    let events := handleNext finalPhotos sessionGrid in
    composite_attempted finalPhotos grid = true ->
    (routes_to_strip grid = false ->
     ~ invalid_input (Some finalPhotos) grid /\
     (forall images,
        decodeAll finalPhotos = Some images ->
        compositeOf events
        = Some (Encoded (gridCompositeOf (count (grid_rows grid))
                           (gridLayout grid 300 3 None images) images))) /\
     (decodeAll finalPhotos = None ->
      compositeOf events = firstPhoto finalPhotos /\
      engineLog events = map LoadImage finalPhotos ++ [ConsoleError])) /\
    (routes_to_strip grid = true ->
     (invalid_input (Some finalPhotos) grid <->
      count_falsy (grid_cols grid) = true \/ count_falsy (grid_rows grid) = true) /\
     (invalid_input (Some finalPhotos) grid ->
      compositeOf events = firstPhoto finalPhotos /\ engineLog events = [])).
Proof.
  intros finalPhotos sessionGrid grid events Ha.
  destruct (handleNext_cases finalPhotos sessionGrid) as (evs & E & Hlog & _ & Hno).
  fold grid in E, Hlog. subst events. rewrite E.
  match type of E with
  | _ = _ ++ [UpdateSession ?u; _] =>
      destruct (sessionUpdateOf_last evs u Hno) as [Hu Hl]
  end.
  unfold compositeOf. rewrite Hu, Hl, Hlog, Ha. cbn [compositeImage].
  destruct (composite_attempted_counts finalPhotos grid Ha) as [Hne Hcount].
  split.
  - intro Hs.
    pose proof (attempted_grid_request_valid finalPhotos grid Ha Hs) as Hv.
    split; [exact Hv|].
    rewrite (createGridComposite_checked _ _ _ _ _ Hv). unfold composeChecked.
    rewrite Hs. cbn [photos_list]. split.
    + intros images Hdec. now rewrite Hdec.
    + intro Hdec. now rewrite Hdec.
  - intro Hs. split.
    + split.
      * intros [F | [F | [F | F]]]; [|now left | now right | now elim F].
        exfalso. cbn in F. apply Z.eqb_eq in F.
        destruct finalPhotos; [now apply Hne | discriminate F].
      * intros [F | F]; [right; now left | right; right; now left].
    + intro Hi. now rewrite (createGridComposite_refused _ _ _ _ _ Hi).
Qed.

Lemma handleNext_request_is_valid_witness :
  composite_attempted four_photos (effectiveGrid grid_4cut) = true /\
  compositeOf (handleNext (B := reference) four_photos grid_4cut)
  = Some (Encoded (gridCompositeOf (H := reference) 2
                     (gridLayout (H := reference) grid_4cut 300 3 None four_images)
                     four_images)).
Proof.
  split; [reflexivity|].
  exact (proj1 (proj2 (proj1 (handleNext_request_is_valid (H := reference)
                               four_photos grid_4cut eq_refl) eq_refl))
           four_images eq_refl).
Defined.

(** X14.  For a layout of the selection screen and as many photos as the
    capture screen collects for it, all of which decode: the single-photo
    layout stores the photo itself, without calling the compositor (the
    photo is not placed on a page-sized canvas); every other layout stores
    the grid canvas of its photos. *)
Theorem offered_layout_composite `{Browser} :
  forall (selected : string) (g : GridOption)
         (photos : list string) (images : list Image),
    findGrid selected = Some g ->
    Z.of_nat (List.length photos) = getGridCellCount (handleContinue selected) ->
    decodeAll photos = Some images ->
    let grid := handleContinue selected in
    let events := handleNext photos grid in
    ((opt_cols g * opt_rows g = 1)%Z ->
     compositeOf events = firstPhoto photos /\ engineLog events = []) /\
    ((opt_cols g * opt_rows g <> 1)%Z ->
     compositeOf events
     = Some (Encoded (gridCompositeOf (opt_rows g)
                        (gridLayout grid 300 3 None images) images))).
Proof.
  intros selected g photos images Hfind Hlen Hdec grid events.
  destruct (offered_layout_stored selected g Hfind) as (Hgrid & Hc & Hr).
  fold grid in Hgrid, Hlen.
  assert (Hstrip : routes_to_strip grid = false).
  { rewrite Hgrid. unfold routes_to_strip. cbn [id isStripGrid is_strip_id].
    destruct (string_dec selected "strip-grid") as [-> | _]; [|reflexivity].
    discriminate Hfind. }
  assert (Hcount : getGridCellCount grid = (opt_cols g * opt_rows g)%Z).
  { rewrite getGridCellCount_expected; rewrite Hgrid.
    - unfold expected_count. rewrite <- Hgrid, Hstrip, Hgrid. reflexivity.
    - cbn. apply Z.eqb_neq. lia.
    - cbn. apply Z.eqb_neq. lia. }
  rewrite Hcount in Hlen.
  assert (Heff : effectiveGrid grid = grid) by (rewrite Hgrid; reflexivity).
  assert (Hatt : composite_attempted photos grid
                 = negb (opt_cols g * opt_rows g =? 1)%Z).
  { unfold composite_attempted. rewrite Hstrip, Hlen. rewrite Hgrid.
    unfold cellProduct. cbn [grid_cols grid_rows cols rows].
    rewrite Z.eqb_refl, andb_true_r, andb_diag.
    destruct (Z.ltb_spec 1 (opt_cols g * opt_rows g)),
             (Z.eqb_spec (opt_cols g * opt_rows g) 1);
      try reflexivity; nia. }
  destruct (handleNext_cases photos grid) as (evs & E & Hlog & _ & Hno).
  rewrite Heff in E, Hlog. fold events in E.
  match type of E with
  | _ = _ ++ [UpdateSession ?u; _] =>
      destruct (sessionUpdateOf_last evs u Hno) as [Hu Hl]
  end.
  unfold compositeOf. rewrite E, Hu, Hl, Hlog, Hatt. cbn [compositeImage].
  split.
  - intro E1. rewrite E1. cbn [negb Z.eqb Pos.eqb]. split; reflexivity.
  - intro N1. apply Z.eqb_neq in N1. rewrite N1. cbn [negb].
    assert (Ha : composite_attempted photos grid = true)
      by (rewrite Hatt, N1; reflexivity).
    pose proof (attempted_grid_request_valid photos grid Ha Hstrip) as Hv.
    rewrite (createGridComposite_checked _ _ _ _ _ Hv). unfold composeChecked.
    rewrite Hstrip. cbn [photos_list]. rewrite Hdec. cbn [snd].
    rewrite Hgrid. reflexivity.
Qed.

Lemma offered_layout_composite_witness :
  findGrid "4x6-4cut" = Some (mkOption "4x6-4cut" "4 CUT" "4 grid cells" 2 2 4 6) /\
  decodeAll (B := reference) four_photos = Some four_images /\
  compositeOf (handleNext (B := reference) four_photos (handleContinue "4x6-4cut"))
  = Some (Encoded (gridCompositeOf (H := reference) 2
                     (gridLayout (H := reference) (handleContinue "4x6-4cut")
                        300 3 None four_images)
                     four_images)).
Proof.
  split; [reflexivity | split; [reflexivity|]].
  refine (proj2 (offered_layout_composite (H := reference) "4x6-4cut"
                   (mkOption "4x6-4cut" "4 CUT" "4 grid cells" 2 2 4 6)
                   four_photos four_images eq_refl eq_refl eq_refl) _).
  discriminate.
Defined.

(** * Properties of the stickers *)

Import EditStickers.

Lemma getStickers_with (st : EditState) (p q : Z) (l : list Sticker)
  (d : option StickerOption) (sp ss : option Z) :
  getStickers (mkEdit (withStickers st p l) d sp ss) q
  = if (q =? p)%Z then l else getStickers st q.
Proof.
  unfold getStickers, withStickers. cbn [allStickers].
  now destruct (q =? p)%Z.
Qed.

Lemma at_index_Some {A} (l : list A) (i : Z) (a : A) :
  at_index l i = Some a ->
  (0 <= i)%Z /\ nth_error l (Z.to_nat i) = Some a /\ (Z.to_nat i < List.length l)%nat.
Proof.
  unfold at_index. destruct (Z.ltb_spec i 0); [discriminate|].
  intro E. repeat split; [assumption | assumption |].
  apply nth_error_Some. congruence.
Qed.

Lemma at_index_None {A} (l : list A) (i : Z) :
  at_index l i = None <-> (i < 0 \/ Z.of_nat (List.length l) <= i)%Z.
Proof.
  unfold at_index. destruct (Z.ltb_spec i 0) as [Hneg | Hpos].
  - split; [now left | reflexivity].
  - rewrite nth_error_None. lia.
Qed.

Lemma replace_at_length {A} (l : list A) (n : nat) (v : A) :
  List.length (replace_at l n v) = List.length l.
Proof.
  revert n. induction l as [|a l IH]; intros [|n]; cbn; auto.
Qed.

Lemma nth_error_replace_at_same {A} (l : list A) (n : nat) (v : A) :
  (n < List.length l)%nat -> nth_error (replace_at l n v) n = Some v.
Proof.
  revert n. induction l as [|a l IH]; intros [|n] Hn; cbn in *; try lia; auto.
  apply IH. lia.
Qed.

Lemma nth_error_replace_at_other {A} (l : list A) (n m : nat) (v : A) :
  m <> n -> nth_error (replace_at l n v) m = nth_error l m.
Proof.
  revert n m. induction l as [|a l IH]; intros [|n] [|m] Hne; cbn; auto; try lia.
Qed.

Lemma In_replace_at {A} (l : list A) (n : nat) (v a : A) :
  In a (replace_at l n v) -> a = v \/ In a l.
Proof.
  revert n. induction l as [|b l IH]; intros [|n]; cbn; try tauto.
  - intros [-> | Hin]; auto.
  - intros [-> | Hin]; auto. destruct (IH _ Hin); auto.
Qed.

Lemma In_filterIndex {A} (l : list A) (k index : Z) (a : A) :
  In a (filterIndex l k index) -> In a l.
Proof.
  revert k. induction l as [|b l IH]; intro k; cbn [filterIndex]; [tauto|].
  destruct (k =? index)%Z; cbn [In]; intros Hin.
  - right. eapply IH, Hin.
  - destruct Hin as [-> | Hin]; [now left | right; eapply IH, Hin].
Qed.

Lemma at_index_replace_same {A} (l : list A) (i : Z) (a v : A) :
  at_index l i = Some a -> at_index (replace_at l (Z.to_nat i) v) i = Some v.
Proof.
  intro E. destruct (at_index_Some _ _ _ E) as (Hpos & _ & Hlt).
  unfold at_index. destruct (Z.ltb_spec i 0); [lia|].
  now apply nth_error_replace_at_same.
Qed.

Lemma at_index_replace_other {A} (l : list A) (i j : Z) (v : A) :
  (0 <= i)%Z -> j <> i -> at_index (replace_at l (Z.to_nat i) v) j = at_index l j.
Proof.
  intros Hpos Hne. unfold at_index. destruct (Z.ltb_spec j 0); [reflexivity|].
  apply nth_error_replace_at_other. lia.
Qed.

Lemma clamp_bounds (v : Q) :
  40 <= Math.max 40 (Math.min 200 v) /\ Math.max 40 (Math.min 200 v) <= 200.
Proof.
  unfold Math.max, Math.min. split.
  - apply Q.le_max_l.
  - apply Q.max_lub; [discriminate | apply Q.le_min_l].
Qed.

Lemma clamp_value (v : Q) :
  (40 <= v -> v <= 200 -> Math.max 40 (Math.min 200 v) == v) /\
  (v <= 40 -> Math.max 40 (Math.min 200 v) == 40) /\
  (200 <= v -> Math.max 40 (Math.min 200 v) == 200).
Proof.
  unfold Math.max, Math.min.
  destruct (Q.min_spec 200 v) as [[H1 E1] | [H1 E1]];
    destruct (Q.max_spec 40 (Qmin 200 v)) as [[H2 E2] | [H2 E2]];
    rewrite E2; rewrite ?E1 in *; repeat split; intros; lra.
Qed.

Lemma remainder_bounds (a b : Q) :
  0 < b ->
  - b < remainder a b /\ remainder a b < b /\
  (0 <= a -> 0 <= remainder a b) /\ (a <= 0 -> remainder a b <= 0).
Proof.
  intro Hb. unfold remainder, truncate.
  assert (Ha : a == (a / b) * b) by (field; lra).
  set (q := a / b) in *. clearbody q.
  destruct (Qle_bool 0 q) eqn:Hq.
  - apply Qle_bool_iff in Hq.
    pose proof (Qfloor_le q) as Hlo. pose proof (Qlt_floor q) as Hhi.
    rewrite inject_Z_plus in Hhi. change (inject_Z 1) with 1 in Hhi.
    set (f := inject_Z (Qfloor q)) in *.
    assert (Hf : 0 <= f).
    { subst f. change 0 with (inject_Z 0). rewrite <- Zle_Qle.
      apply Qfloor_resp_le in Hq. exact Hq. }
    clearbody f. repeat split; intros; nra.
  - assert (Hneg : q < 0).
    { apply Qnot_le_lt. intro Hle. apply Qle_bool_iff in Hle. congruence. }
    pose proof (Qle_ceiling q) as Hlo. pose proof (Qceiling_lt q) as Hhi.
    unfold Z.sub in Hhi. rewrite inject_Z_plus in Hhi.
    set (c := inject_Z (Qceiling q)) in *.
    assert (Hc : c <= 0).
    { subst c. change 0 with (inject_Z 0). rewrite <- Zle_Qle.
      apply Qlt_le_weak in Hneg. apply Qceiling_resp_le in Hneg. exact Hneg. }
    assert (Hhi' : c - 1 < q) by exact Hhi.
    clearbody c.
    assert (P1 : 0 <= b * (c - q)) by (apply Qmult_le_0_compat; lra).
    assert (P2 : 0 < b * (q + 1 - c)) by (apply Qmult_lt_0_compat; lra).
    assert (P3 : 0 < b * (0 - q)) by (apply Qmult_lt_0_compat; lra).
    repeat split; intros; lra.
Qed.

(** X15.  [resizeSticker] on a sticker that exists never throws and changes
    only that sticker's size: the new size is the old one plus the delta,
    held between 40 and 200; every other field, every other sticker of the
    photo and the stickers of every other photo are as before. *)
Theorem resizeSticker_clamps :
  forall (st : EditState) (photoIndex stickerIndex : Z) (delta : Q) (s : Sticker),
    at_index (getStickers st photoIndex) stickerIndex = Some s ->
    exists st' s',
      resizeSticker photoIndex stickerIndex delta st = Normal st' /\
      at_index (getStickers st' photoIndex) stickerIndex = Some s' /\
      (40 <= size s' /\ size s' <= 200) /\
      (40 <= size s + delta -> size s + delta <= 200 -> size s' == size s + delta) /\
      (size s + delta <= 40 -> size s' == 40) /\
      (200 <= size s + delta -> size s' == 200) /\
      (id s', src s', type s', x s', y s', rotation s')
      = (id s, src s, type s, x s, y s, rotation s) /\
      (forall j, j <> stickerIndex ->
         at_index (getStickers st' photoIndex) j = at_index (getStickers st photoIndex) j) /\
      (forall q, q <> photoIndex -> getStickers st' q = getStickers st q).
Proof.
  intros st p i delta s E.
  destruct (at_index_Some _ _ _ E) as (Hpos & _ & _).
  unfold resizeSticker. rewrite E. cbv zeta.
  eexists. eexists. split; [reflexivity|].
  rewrite getStickers_with, Z.eqb_refl.
  split; [eapply at_index_replace_same, E|].
  cbn [size id src type x y rotation].
  split; [apply clamp_bounds|].
  destruct (clamp_value (size s + delta)) as (V1 & V2 & V3).
  repeat split; try assumption.
  - intros j Hj. now apply at_index_replace_other.
  - intros q Hq. rewrite getStickers_with.
    destruct (Z.eqb_spec q p); [contradiction | reflexivity].
Qed.

(** X16.  [rotateSticker] on a sticker that exists never throws and changes
    only that sticker's rotation: the new angle differs from the old one
    plus the delta by a whole number of turns, lies strictly between -360
    and 360, and has the sign of that sum, so that turning left from zero
    gives a negative angle. *)
Theorem rotateSticker_wraps :
  forall (st : EditState) (photoIndex stickerIndex : Z) (delta : Q) (s : Sticker),
    at_index (getStickers st photoIndex) stickerIndex = Some s ->
    exists st' s',
      rotateSticker photoIndex stickerIndex delta st = Normal st' /\
      at_index (getStickers st' photoIndex) stickerIndex = Some s' /\
      (exists turns : Z, rotation s' == rotation s + delta - 360 * inject_Z turns) /\
      (- (360) < rotation s' /\ rotation s' < 360) /\
      (0 <= rotation s + delta -> 0 <= rotation s') /\
      (rotation s + delta <= 0 -> rotation s' <= 0) /\
      (id s', src s', type s', x s', y s', size s')
      = (id s, src s, type s, x s, y s, size s) /\
      (forall j, j <> stickerIndex ->
         at_index (getStickers st' photoIndex) j = at_index (getStickers st photoIndex) j) /\
      (forall q, q <> photoIndex -> getStickers st' q = getStickers st q).
Proof.
  intros st p i delta s E.
  destruct (at_index_Some _ _ _ E) as (Hpos & _ & _).
  unfold rotateSticker. rewrite E. cbv zeta.
  eexists. eexists. split; [reflexivity|].
  rewrite getStickers_with, Z.eqb_refl.
  split; [eapply at_index_replace_same, E|].
  cbn [size id src type x y rotation].
  destruct (remainder_bounds (rotation s + delta) 360) as (B1 & B2 & B3 & B4);
    [reflexivity|].
  split; [eexists; unfold remainder; reflexivity|].
  repeat split; try assumption.
  - intros j Hj. now apply at_index_replace_other.
  - intros q Hq. rewrite getStickers_with.
    destruct (Z.eqb_spec q p); [contradiction | reflexivity].
Qed.

(** X17.  The sticker selection outlives a change of photo: when a sticker
    is selected and the user clicks a photo that has no sticker at that
    index, the four resize and rotate buttons are still there and each of
    them throws a [TypeError]; the delete button removes nothing and clears
    the selection. *)
Theorem stale_selection_throws :
  forall (st : EditState) (photoIndex stickerIndex : Z),
    selectedStickerIndex st = Some stickerIndex ->
    at_index (getStickers st photoIndex) stickerIndex = None ->
    let st' := settle st (click st (ClickPhoto photoIndex)) in
    click st' ClickSmaller = Throw TypeError /\
    click st' ClickLarger = Throw TypeError /\
    click st' ClickRotateLeft = Throw TypeError /\
    click st' ClickRotateRight = Throw TypeError /\
    exists st'', click st' ClickDelete = Normal st'' /\
                 getStickers st'' photoIndex = getStickers st photoIndex /\
                 selectedStickerIndex st'' = None.
Proof.
  intros st p i Hsel Hnone st'. subst st'.
  cbn [click settle]. unfold withSelection, selectPhoto.
  cbn [selectedPhotoIndex selectedStickerIndex]. rewrite Hsel.
  unfold resizeSticker, rotateSticker, getStickers in *.
  cbn [allStickers]. rewrite Hnone.
  repeat (split; [reflexivity|]).
  eexists. split; [reflexivity|].
  unfold deleteSticker. cbn [selectedStickerIndex].
  split; [|reflexivity].
  change (getStickers (mkEdit (withStickers (mkEdit (allStickers st) (draggedSticker st)
            (Some p) (selectedStickerIndex st)) p
            (filterIndex (getStickers st p) 0 i)) (draggedSticker st) (Some p) None) p
          = getStickers st p).
  rewrite getStickers_with, Z.eqb_refl, filterIndex_removes.
  apply at_index_None in Hnone. fold (getStickers st p) in Hnone.
  destruct (Z.leb_spec 0 i), (Z.ltb_spec i (0 + Z.of_nat (List.length (getStickers st p))));
    cbn [andb]; try reflexivity; lia.
Qed.

Lemma nth_error_In_at_index {A} (l : list A) (i : Z) (a : A) :
  at_index l i = Some a -> In a l.
Proof.
  intro E. destruct (at_index_Some _ _ _ E) as (_ & Hn & _).
  eapply nth_error_In, Hn.
Qed.

Lemma click_keeps_well_formed (st : EditState) (c : Click) :
  well_formed st -> well_formed (settle st (click st c)).
Proof.
  intro Hwf.
  assert (Hsame : forall st', allStickers st' = allStickers st -> well_formed st').
  { intros st' Heq q s Hin. apply (Hwf q). unfold getStickers in *. now rewrite <- Heq. }
  assert (Hupd : forall p l d sp ss,
             (forall s, In s l ->
                In s (getStickers st p) \/
                (40 <= size s /\ size s <= 200 /\ - (360) < rotation s /\ rotation s < 360)) ->
             well_formed (mkEdit (withStickers st p l) d sp ss)).
  { intros p l d sp ss Hl q s Hin. rewrite getStickers_with in Hin.
    destruct (Z.eqb_spec q p) as [-> | Hne]; [|now apply (Hwf q)].
    destruct (Hl s Hin) as [Hold | Hnew]; [now apply (Hwf p) | exact Hnew]. }
  destruct c; cbn [click settle]; try (apply Hsame; reflexivity).
  - unfold handleDrop. destruct (draggedSticker st) as [dragged|]; [|exact Hwf].
    destruct container as [[cl ct]|]; [|exact Hwf].
    apply Hupd. intros s Hin. apply in_app_or in Hin.
    destruct Hin as [Hin | [<- | []]]; [now left | right].
    cbn [size rotation]. repeat split; reflexivity || discriminate.
  - destruct (at_index (getStickers st photoIndex) stickerIndex);
      cbn [settle]; [apply Hsame; reflexivity | exact Hwf].
  - unfold withSelection.
    destruct (selectedPhotoIndex st) as [p|], (selectedStickerIndex st) as [i|];
      cbn [settle]; try exact Hwf.
    unfold resizeSticker. destruct (at_index (getStickers st p) i) as [s0|] eqn:E;
      cbn [settle]; [|exact Hwf].
    apply Hupd. intros s Hin. apply In_replace_at in Hin.
    destruct Hin as [-> | Hin]; [right | now left].
    cbn [size rotation]. destruct (clamp_bounds (size s0 + - (10))) as [C1 C2].
    destruct (Hwf p s0 (nth_error_In_at_index _ _ _ E)) as (_ & _ & R1 & R2).
    repeat split; assumption.
  - unfold withSelection.
    destruct (selectedPhotoIndex st) as [p|], (selectedStickerIndex st) as [i|];
      cbn [settle]; try exact Hwf.
    unfold resizeSticker. destruct (at_index (getStickers st p) i) as [s0|] eqn:E;
      cbn [settle]; [|exact Hwf].
    apply Hupd. intros s Hin. apply In_replace_at in Hin.
    destruct Hin as [-> | Hin]; [right | now left].
    cbn [size rotation]. destruct (clamp_bounds (size s0 + 10)) as [C1 C2].
    destruct (Hwf p s0 (nth_error_In_at_index _ _ _ E)) as (_ & _ & R1 & R2).
    repeat split; assumption.
  - unfold withSelection.
    destruct (selectedPhotoIndex st) as [p|], (selectedStickerIndex st) as [i|];
      cbn [settle]; try exact Hwf.
    unfold rotateSticker. destruct (at_index (getStickers st p) i) as [s0|] eqn:E;
      cbn [settle]; [|exact Hwf].
    apply Hupd. intros s Hin. apply In_replace_at in Hin.
    destruct Hin as [-> | Hin]; [right | now left].
    cbn [size rotation].
    destruct (remainder_bounds (rotation s0 + - (15)) 360) as (B1 & B2 & _);
      [reflexivity|].
    destruct (Hwf p s0 (nth_error_In_at_index _ _ _ E)) as (S1 & S2 & _).
    repeat split; assumption.
  - unfold withSelection.
    destruct (selectedPhotoIndex st) as [p|], (selectedStickerIndex st) as [i|];
      cbn [settle]; try exact Hwf.
    unfold rotateSticker. destruct (at_index (getStickers st p) i) as [s0|] eqn:E;
      cbn [settle]; [|exact Hwf].
    apply Hupd. intros s Hin. apply In_replace_at in Hin.
    destruct Hin as [-> | Hin]; [right | now left].
    cbn [size rotation].
    destruct (remainder_bounds (rotation s0 + 15) 360) as (B1 & B2 & _);
      [reflexivity|].
    destruct (Hwf p s0 (nth_error_In_at_index _ _ _ E)) as (S1 & S2 & _).
    repeat split; assumption.
  - unfold withSelection.
    destruct (selectedPhotoIndex st) as [p|], (selectedStickerIndex st) as [i|];
      cbn [settle]; try exact Hwf.
    unfold deleteSticker. apply Hupd. intros s Hin. left.
    eapply In_filterIndex, Hin.
  - destruct (selectedPhotoIndex st) as [p|]; cbn [settle]; [|exact Hwf].
    unfold resetStickers. apply Hupd. intros s [].
Qed.

(** X18.  Whatever the user does with stickers, starting from the empty
    edit screen, every sticker on every photo keeps a size from 40 to 200
    and a rotation strictly between -360 and 360 degrees; a handler that
    throws changes nothing. *)
Theorem stickers_stay_well_formed :
  forall cs : list Click, well_formed (clicks initialEdit cs).
Proof.
  assert (Hgen : forall cs st, well_formed st -> well_formed (clicks st cs)).
  { induction cs as [|c cs IH]; intros st Hwf; [exact Hwf|].
    unfold clicks. cbn [fold_left]. apply IH. now apply click_keeps_well_formed. }
  intro cs. apply Hgen. intros q s [].
Qed.

Lemma nth_error_without {A} (l : list A) (n j : nat) :
  (n < List.length l)%nat ->
  nth_error (firstn n l ++ skipn (S n) l) j
  = if (j <? n)%nat then nth_error l j else nth_error l (S j).
Proof.
  intro Hn.
  assert (Hlen : List.length (firstn n l) = n) by (rewrite length_firstn; lia).
  destruct (Nat.ltb_spec j n) as [Hlt | Hge].
  - rewrite nth_error_app1 by lia. rewrite nth_error_firstn.
    now replace (j <? n)%nat with true by (symmetry; apply Nat.ltb_lt; lia).
  - rewrite nth_error_app2 by lia. rewrite Hlen, nth_error_skipn.
    f_equal. lia.
Qed.

(** X19.  [deleteSticker] on a sticker that exists removes exactly that
    one: the photo has one sticker fewer, the stickers before it keep their
    index, the ones after it move down by one, the other photos are
    untouched and no sticker is selected any more. *)
Theorem deleteSticker_removes :
  forall (st : EditState) (photoIndex stickerIndex : Z) (s : Sticker),
    at_index (getStickers st photoIndex) stickerIndex = Some s ->
    let st' := deleteSticker photoIndex stickerIndex st in
    S (List.length (getStickers st' photoIndex))
    = List.length (getStickers st photoIndex) /\
    (forall j, (j < stickerIndex)%Z ->
       at_index (getStickers st' photoIndex) j = at_index (getStickers st photoIndex) j) /\
    (forall j, (stickerIndex <= j)%Z ->
       at_index (getStickers st' photoIndex) j
       = at_index (getStickers st photoIndex) (j + 1)) /\
    (forall q, q <> photoIndex -> getStickers st' q = getStickers st q) /\
    selectedStickerIndex st' = None.
Proof.
  intros st p i s E st'. subst st'.
  destruct (at_index_Some _ _ _ E) as (Hpos & _ & Hlt).
  unfold deleteSticker. cbn [selectedStickerIndex].
  rewrite !getStickers_with, Z.eqb_refl, filterIndex_removes.
  replace ((0 <=? i)%Z && (i <? 0 + Z.of_nat (List.length (getStickers st p)))%Z)%bool
    with true
    by (symmetry; apply andb_true_iff; split; [apply Z.leb_le | apply Z.ltb_lt]; lia).
  replace (i - 0)%Z with i by lia.
  set (l := getStickers st p) in *. set (n := Z.to_nat i) in *.
  split; [|split; [|split; [|split]]].
  - rewrite length_app, length_firstn, length_skipn. lia.
  - intros j Hj. unfold at_index. destruct (Z.ltb_spec j 0); [reflexivity|].
    rewrite nth_error_without by exact Hlt.
    replace (Z.to_nat j <? n)%nat with true; [reflexivity|].
    symmetry. apply Nat.ltb_lt. subst n. lia.
  - intros j Hj. unfold at_index.
    destruct (Z.ltb_spec j 0); [lia|]. destruct (Z.ltb_spec (j + 1) 0); [lia|].
    rewrite nth_error_without by exact Hlt.
    replace (Z.to_nat j <? n)%nat with false
      by (symmetry; apply Nat.ltb_ge; subst n; lia).
    f_equal. lia.
  - intros q Hq. rewrite getStickers_with.
    destruct (Z.eqb_spec q p); [contradiction | reflexivity].
  - reflexivity.
Qed.

(** X20.  [handleDrop] with a sticker being dragged onto a mounted photo
    puts one new sticker after the photo's stickers, of size 80, unrotated,
    at the pointer's position inside the photo, with the dragged option's
    emoji; it leaves the stickers already there at their indices and
    selects the new one, so that the sticker buttons act on it.  Without a
    dragged sticker, or on a photo that is not mounted, it does nothing. *)
Theorem handleDrop_selects_new_sticker :
  forall (st : EditState) (dragged : StickerOption) (clientX clientY left top : Q)
         (now photoIndex : Z),
    draggedSticker st = Some dragged ->
    let st' := handleDrop clientX clientY (Some (left, top)) now photoIndex st in
    let new := mkSticker now (option_src dragged) (option_type dragged)
                         (clientX - left) (clientY - top) 80 0 in
    getStickers st' photoIndex = getStickers st photoIndex ++ [new] /\
    (exists i, selectedStickerIndex st' = Some i /\
               at_index (getStickers st' photoIndex) i = Some new) /\
    selectedPhotoIndex st' = Some photoIndex /\
    draggedSticker st' = None /\
    (forall q, q <> photoIndex -> getStickers st' q = getStickers st q) /\
    handleDrop clientX clientY None now photoIndex st = st /\
    (forall st0, draggedSticker st0 = None ->
       handleDrop clientX clientY (Some (left, top)) now photoIndex st0 = st0).
Proof.
  intros st dragged cx cy cl ct now p Hd st' new. subst st' new.
  unfold handleDrop. rewrite Hd.
  cbn [selectedStickerIndex selectedPhotoIndex draggedSticker].
  rewrite !getStickers_with, Z.eqb_refl.
  split; [reflexivity|]. split.
  - eexists. split; [reflexivity|].
    unfold at_index. rewrite length_app. cbn [List.length].
    destruct (Z.ltb_spec (Z.of_nat (List.length (getStickers st p) + 1) - 1) 0); [lia|].
    replace (Z.to_nat (Z.of_nat (List.length (getStickers st p) + 1) - 1))
      with (List.length (getStickers st p) + 0)%nat by lia.
    now rewrite nth_error_app2, Nat.add_comm, Nat.add_sub by lia.
  - repeat split.
    + intros q Hq. rewrite getStickers_with.
      destruct (Z.eqb_spec q p); [contradiction | reflexivity].
    + intros st0 H0. now rewrite H0.
Qed.

(** ** Worked instances *)

Lemma resizeSticker_clamps_witness :
  at_index (getStickers star_dropped 0) 0 = Some the_star /\
  exists st' s',
    resizeSticker 0 0 10 star_dropped = Normal st' /\
    at_index (getStickers st' 0) 0 = Some s' /\
    size s' == 80 + 10.
Proof.
  split; [reflexivity|].
  destruct (resizeSticker_clamps star_dropped 0 0 10 the_star eq_refl)
    as (st' & s' & E1 & E2 & _ & E3 & _).
  exists st', s'. split; [exact E1 | split; [exact E2|]].
  apply E3; vm_compute; discriminate.
Defined.

Lemma rotateSticker_wraps_witness :
  at_index (getStickers star_dropped 0) 0 = Some the_star /\
  exists st' s',
    rotateSticker 0 0 (- (15)) star_dropped = Normal st' /\
    at_index (getStickers st' 0) 0 = Some s' /\
    - (360) < rotation s' /\ rotation s' <= 0.
Proof.
  split; [reflexivity|].
  destruct (rotateSticker_wraps star_dropped 0 0 (- (15)) the_star eq_refl)
    as (st' & s' & E1 & E2 & _ & (E3 & _) & _ & E4 & _).
  exists st', s'. split; [exact E1 | split; [exact E2 | split; [exact E3|]]].
  apply E4. vm_compute. discriminate.
Defined.

Lemma stale_selection_throws_witness :
  selectedStickerIndex star_dropped = Some 0%Z /\
  at_index (getStickers star_dropped 1) 0 = None /\
  click (settle star_dropped (click star_dropped (ClickPhoto 1))) ClickLarger
  = Throw TypeError.
Proof.
  split; [reflexivity | split; [reflexivity|]].
  exact (proj1 (proj2 (stale_selection_throws star_dropped 1 0 eq_refl eq_refl))).
Defined.

Lemma deleteSticker_removes_witness :
  at_index (getStickers star_dropped 0) 0 = Some the_star /\
  S (List.length (getStickers (deleteSticker 0 0 star_dropped) 0))
  = List.length (getStickers star_dropped 0).
Proof.
  split; [reflexivity|].
  exact (proj1 (deleteSticker_removes star_dropped 0 0 the_star eq_refl)).
Defined.

Lemma handleDrop_selects_new_sticker_witness :
  draggedSticker star_dragged = Some star /\
  getStickers (handleDrop 120 90 (Some (20, 10)) 1700000000000 0 star_dragged) 0
  = getStickers star_dragged 0 ++ [the_star].
Proof.
  split; [reflexivity|].
  exact (proj1 (handleDrop_selects_new_sticker star_dragged star 120 90 20 10
                  1700000000000 0 eq_refl)).
Defined.
